(** * cloudwatch-logs-to-splunk: the CloudWatchToSplunk construct and
      the public-IP check, embedded in Rocq

    The repository is an AWS CDK application.  Its one construct of
    interest, [CloudWatchToSplunk] (constructs/CloudWatchToSplunk.ts),
    is a constructor that adds resources to a construct tree; its one
    function with logic of its own, [checkIfValidIP]
    (functions/get-public-ip.ts), tests a string against a regular
    expression.

    The construct tree maps construct paths to the resources that
    synthesis emits for them, and is kept as the list of its nodes in
    the order they were added; constructors are written in
    a state-and-exception monad over that tree, one line of Rocq per
    statement of the TypeScript constructor.  What [aws-cdk-lib] does
    for each [new X(scope, id, props)] (defaults, validation, the
    duplicate-name check of [constructs]) is written out next to it. *)

From Stdlib Require Import String Ascii List NArith Lia.
From Stdlib Require Import DecimalString.
From stdpp Require Import list strings sets.

Local Open Scope string_scope.
Local Open Scope list_scope.

(** ** JavaScript results: a value or a thrown [Error] *)

Record Error := mkError { name : string; message : string }.

(** [new Error(msg)] *)
Definition Error_new (msg : string) : Error :=
  {| name := "Error"; message := msg |}.

(** [Error.prototype.toString()], what [+] and template literals use:
    the message alone when the name is empty, the name alone when the
    message is empty, and [name: message] otherwise *)
Definition Error_toString (e : Error) : string :=
  if (name e =? "")%string then message e
  else if (message e =? "")%string then name e
  else name e +:+ ": " +:+ message e.

Inductive result (A : Type) : Type :=
| Return (a : A)
| Throw (e : Error).
Arguments Return {A} a.
Arguments Throw {A} e.

(** ** Construct paths and template values *)

(** A construct is identified by its path in the tree, root first
    ([node.path]); its logical id in the template is a function of that
    path, so references are modelled by the path itself. *)
Definition path := list string.

Definition child (scope : path) (id : string) : path := scope ++ [id].

(** Values that can stand in a synthesized template. *)
#[local] Set Warnings "-register-all".
Inductive value :=
| VStr (s : string)
| VRef (p : path)                       (* {"Ref": <logical id of p>} *)
| VGetAtt (p : path) (attr : string)    (* {"Fn::GetAtt": [<p>, attr]} *)
| VJoin (delim : string) (parts : list value)
| VDynamicReference (service : string) (referenceKey : list value).
                                        (* {{resolve:service:key}} *)

(** ** Resource properties *)

Inductive RemovalPolicy := DESTROY | RETAIN | SNAPSHOT.
Inductive StreamMode := PROVISIONED | ON_DEMAND.

(** [Duration], in seconds *)
Definition Duration := N.
Definition Duration_minutes (n : N) : Duration := (60 * n)%N.
Definition Duration_toHours (d : Duration) : N := (d / 3600)%N.

(** [RetentionDays], an enum whose members are day counts *)
Definition RetentionDays := N.
Definition RetentionDays_ONE_DAY : RetentionDays := 1%N.

Record PolicyStatement := {
  actions : list string;
  resources : list value
}.

Record CfnStream := {
  RetentionPeriodHours : N;
  ShardCount : option N;
  StreamModeDetails : option StreamMode
}.

Record CfnBucket := {
  Bucket_DeletionPolicy : RemovalPolicy;
  Bucket_AutoDeleteObjects : bool   (* tag aws-cdk:auto-delete-objects and
                                       the custom resource behind it *)
}.

Record CfnLogGroup := {
  LogGroup_DeletionPolicy : RemovalPolicy;
  RetentionInDays : option N
}.

Record CfnLogStream := {
  LogStream_LogGroupName : value;
  LogStream_LogStreamName : option string;
  LogStream_DeletionPolicy : RemovalPolicy
}.

Record CfnFunction := {
  Timeout : option N;
  Code : string;
  Handler : string;
  Runtime : string
}.

Record CfnRole := {
  AssumeRolePrincipal : string;
  ManagedPolicyArns : list string;
  Policies : list (string * list PolicyStatement)
}.

Record CfnPolicy := {
  PolicyStatements : list PolicyStatement;
  PolicyRoles : list value
}.

Record CfnSubscriptionFilter := {
  DestinationArn : value;
  FilterPattern : string;
  LogGroupName : value;
  RoleArn : option value
}.

(** The [CfnDeliveryStream] properties the construct sets, with the
    names the TypeScript object literal gives them. *)
Record CloudWatchLoggingOptions := {
  logGroupName : value;
  logStreamName : value;
  enabled : bool
}.

Record ProcessorParameter := {
  parameterName : string;
  parameterValue : value
}.

Record Processor := {
  type : string;
  parameters : list ProcessorParameter
}.

Record ProcessingConfiguration := {
  processingEnabled : bool;
  processors : list Processor
}.

Record S3Configuration := {
  bucketArn : value;
  s3RoleArn : value
}.

Record SplunkDestinationConfiguration := {
  cloudWatchLoggingOptions : CloudWatchLoggingOptions;
  processingConfiguration : ProcessingConfiguration;
  hecEndpoint : string;
  hecEndpointType : string;
  hecToken : value;
  s3Configuration : S3Configuration
}.

Record KinesisStreamSourceConfiguration := {
  kinesisStreamArn : value;
  sourceRoleArn : value
}.

Record CfnDeliveryStream := {
  deliveryStreamType : string;
  kinesisStreamSourceConfiguration : KinesisStreamSourceConfiguration;
  splunkDestinationConfiguration : SplunkDestinationConfiguration;
  dependsOn : list path
}.

(** What a node of the construct tree synthesizes to.  A level-2
    construct is a plain node ([RConstruct]) whose child [Resource]
    carries its CloudFormation resource, as in the CDK. *)
Inductive resource :=
| RConstruct
| RStream (r : CfnStream)
| RBucket (r : CfnBucket)
| RLogGroup (r : CfnLogGroup)
| RLogStream (r : CfnLogStream)
| RFunction (r : CfnFunction)
| RRole (r : CfnRole)
| RPolicy (r : CfnPolicy)
| RSubscriptionFilter (r : CfnSubscriptionFilter)
| RDeliveryStream (r : CfnDeliveryStream).

(** The construct tree: the nodes in the order they were added, newest
    first, looked up by path. *)
Record tree := Tree { nodes : list (path * resource) }.

Fixpoint assoc (p : path) (l : list (path * resource)) : option resource :=
  match l with
  | [] => None
  | (q, r) :: l' => if decide (q = p) then Some r else assoc p l'
  end.

Fixpoint assoc_alter (f : resource -> resource) (p : path)
    (l : list (path * resource)) : list (path * resource) :=
  match l with
  | [] => []
  | (q, r) :: l' =>
      (q, if decide (q = p) then f r else r) :: assoc_alter f p l'
  end.

#[global] Instance tree_empty : Empty tree := Tree [].
#[global] Instance tree_lookup : Lookup path resource tree :=
  fun p t => assoc p (nodes t).
#[global] Instance tree_insert : Insert path resource tree :=
  fun p r t => Tree ((p, r) :: nodes t).
#[global] Instance tree_alter : Alter path resource tree :=
  fun f p t => Tree (assoc_alter f p (nodes t)).

(** ** The construction monad: the tree as state, [throw] as failure *)

Definition cdk (A : Type) : Type := tree -> result (A * tree).

Definition ret {A} (a : A) : cdk A := fun t => Return (a, t).

Definition bind {A B} (m : cdk A) (k : A -> cdk B) : cdk B :=
  fun t => match m t with
           | Return (a, t') => k a t'
           | Throw e => Throw e
           end.

Definition throw {A} (e : Error) : cdk A := fun _ => Throw e.

Notation "'let*' x ':=' c1 'in' c2" := (bind c1 (fun x => c2))
  (at level 10, x pattern, c1 at level 100, c2 at level 200).

(** [array.forEach(f)] *)
Fixpoint forEach {A} (l : list A) (f : A -> cdk unit) : cdk unit :=
  match l with
  | [] => ret tt
  | x :: l' => let* _ := f x in forEach l' f
  end.

(** [path.join], for messages *)
Definition path_toString (p : path) : string :=
  String.concat "/" p.

(** [new Construct(scope, id)] and every [new X(scope, id, ...)]:
    [Node.addChild] throws when the scope already has a child of that
    name.  Of the checks of the constructs library this is the one that
    is modelled: an empty [id] below the root and the rewriting of a
    [/] in [id] are left out, so the properties below say what holds
    when a constructor returns, and when it throws for a taken name. *)
Definition addChild (scope : path) (id : string) (r : resource) : cdk path :=
  fun t => match t !! child scope id with
           | Some _ =>
               Throw (Error_new ("There is already a Construct with name '"
                                   +:+ id +:+ "' in " +:+ path_toString scope))
           | None => Return (child scope id, <[child scope id := r]> t)
           end.

(** [scope.node.tryFindChild(id)] *)
Definition tryFindChild (scope : path) (id : string) : cdk (option path) :=
  fun t => match t !! child scope id with
           | Some _ => Return (Some (child scope id), t)
           | None => Return (None, t)
           end.

(** [new CfnX(scope, 'Resource', props)] under a fresh level-2 node:
    what the constructor of every level-2 construct starts with. *)
Definition newL2 (scope : path) (id : string) (r : resource) : cdk path :=
  let* this := addChild scope id RConstruct in
  let* _ := addChild this "Resource" r in
  ret this.

(** [node.defaultChild] of a level-2 construct *)
Abbreviation defaultChild p := (child p "Resource").

(** In-place update of the resource a node carries. *)
Definition update (p : path) (f : resource -> resource) : cdk unit :=
  fun t => Return (tt, alter f p t).

(** ** aws-cdk-lib: the constructs the repository instantiates *)

Module Stream.
Record Props := {
  streamMode : option StreamMode;
  shardCount : option N;
  retentionPeriod : option Duration
}.

(** [new Stream(scope, id, props)] (aws-kinesis): a shard count is
    refused in on-demand mode and defaults to 1 otherwise; the
    retention period defaults to 24 hours (the repository's test expects
    [RetentionPeriodHours: 24]) and must lie in 24..8760.  The stream
    resource alone is recorded: the condition
    [AwsCdkKinesisEncryptedStreamsUnsupportedRegions] that the library
    adds to the stack for the default encryption is not. *)
Definition new (scope : path) (id : string) (props : Props) : cdk path :=
  match streamMode props, shardCount props with
  | Some ON_DEMAND, Some _ =>
      throw (Error_new
        "streamMode must be set to PROVISIONED (default) in order to specify shardCount")
  | _, _ =>
      let shards :=
        match streamMode props, shardCount props with
        | (Some PROVISIONED | None), None => Some 1%N
        | _, sc => sc
        end in
      let retentionPeriodHours :=
        match retentionPeriod props with
        | Some d => Duration_toHours d
        | None => 24%N
        end in
      if ((retentionPeriodHours <? 24) || (8760 <? retentionPeriodHours))%N
      then throw (Error_new
        "retentionPeriod must be between 24 and 8760 hours")
      else
        newL2 scope id
          (RStream {| RetentionPeriodHours := retentionPeriodHours;
                      ShardCount := shards;
                      StreamModeDetails := streamMode props |})
  end.

Definition streamArn (s : path) : value := VGetAtt (defaultChild s) "Arn".
End Stream.

Module Role.
Record Props := {
  assumedBy : string;                       (* new ServicePrincipal(...) *)
  inlinePolicies : list (string * list PolicyStatement)
}.

Definition new (scope : path) (id : string) (props : Props) : cdk path :=
  newL2 scope id
    (RRole {| AssumeRolePrincipal := assumedBy props;
              ManagedPolicyArns := [];
              Policies := inlinePolicies props |}).

Definition roleArn (r : path) : value := VGetAtt (defaultChild r) "Arn".
Definition roleName (r : path) : value := VRef (defaultChild r).

Definition addStatement (st : PolicyStatement) (r : resource) : resource :=
  match r with
  | RPolicy p => RPolicy {| PolicyStatements := PolicyStatements p ++ [st];
                            PolicyRoles := PolicyRoles p |}
  | _ => r
  end.

(** [role.addToPrincipalPolicy(statement)]: the first grant creates the
    role's [DefaultPolicy], later ones add their statement to it. *)
Definition addToPrincipalPolicy (r : path) (st : PolicyStatement) : cdk unit :=
  let* found := tryFindChild (child r "DefaultPolicy") "Resource" in
  match found with
  | Some policy => update policy (addStatement st)
  | None =>
      let* _ := newL2 r "DefaultPolicy"
                  (RPolicy {| PolicyStatements := [st];
                              PolicyRoles := [roleName r] |}) in
      ret tt
  end.

(** [role.grantPassRole(identity)] *)
Definition grantPassRole (r identity : path) : cdk unit :=
  addToPrincipalPolicy identity
    {| actions := ["iam:PassRole"]; resources := [roleArn r] |}.
End Role.

Module Bucket.
Record Props := {
  removalPolicy : option RemovalPolicy;
  autoDeleteObjects : option bool
}.

(** [new Bucket(scope, id, props)] (aws-s3): [autoDeleteObjects] is
    refused unless the removal policy is [DESTROY]; a bucket is
    retained by default.  The bucket resource alone is recorded, with
    [autoDeleteObjects] as a field: the bucket policy, the custom
    resource and the stack's
    [Custom::S3AutoDeleteObjectsCustomResourceProvider] that carry it out
    are not. *)
Definition new (scope : path) (id : string) (props : Props) : cdk path :=
  match autoDeleteObjects props, removalPolicy props with
  | Some true, (Some RETAIN | Some SNAPSHOT | None) =>
      throw (Error_new
        "Cannot use 'autoDeleteObjects' property on a bucket without setting removal policy to 'DESTROY'.")
  | ado, rp =>
      newL2 scope id
        (RBucket {| Bucket_DeletionPolicy := default RETAIN rp;
                    Bucket_AutoDeleteObjects := default false ado |})
  end.

Definition bucketArn (b : path) : value := VGetAtt (defaultChild b) "Arn".

(** [bucket.grantWrite(identity)]; the actions are those the
    repository's test expects in the role's default policy. *)
Definition grantWrite (b identity : path) : cdk unit :=
  Role.addToPrincipalPolicy identity
    {| actions := ["s3:DeleteObject*"; "s3:PutObject"; "s3:PutObjectLegalHold";
                   "s3:PutObjectRetention"; "s3:PutObjectTagging";
                   "s3:PutObjectVersionTagging"; "s3:Abort*"];
       resources := [bucketArn b; VJoin "" [bucketArn b; VStr "/*"]] |}.
End Bucket.

Module LogGroup.
Record Props := {
  removalPolicy : option RemovalPolicy;
  retention : option RetentionDays
}.

(** [new LogGroup(scope, id, props)] (aws-logs): retained, and kept
    for two years (731 days), by default. *)
Definition new (scope : path) (id : string) (props : Props) : cdk path :=
  newL2 scope id
    (RLogGroup {| LogGroup_DeletionPolicy := default RETAIN (removalPolicy props);
                  RetentionInDays := Some (default 731%N (retention props)) |}).

Definition logGroupName (g : path) : value := VRef (defaultChild g).
Definition logGroupArn (g : path) : value := VGetAtt (defaultChild g) "Arn".

(** [logGroup.grantWrite(identity)] *)
Definition grantWrite (g identity : path) : cdk unit :=
  Role.addToPrincipalPolicy identity
    {| actions := ["logs:CreateLogStream"; "logs:PutLogEvents"];
       resources := [logGroupArn g] |}.
End LogGroup.

Module LogStream.
Record Props := {
  logGroup : path;
  logStreamName : option string;
  removalPolicy : option RemovalPolicy
}.

Definition new (scope : path) (id : string) (props : Props) : cdk path :=
  newL2 scope id
    (RLogStream {| LogStream_LogGroupName := LogGroup.logGroupName (logGroup props);
                   LogStream_LogStreamName := logStreamName props;
                   LogStream_DeletionPolicy := default RETAIN (removalPolicy props) |}).

(** the [logStreamName] attribute of the construct: a [Ref] *)
Definition logStreamName_of (s : path) : value := VRef (defaultChild s).
End LogStream.

Module Function.
Record Props := {
  timeout : option Duration;
  code : string;          (* Code.fromAsset(path) *)
  handler : string;
  runtime : string        (* Runtime.NODEJS_14_X.name *)
}.

(** [new Function(scope, id, props)] (aws-lambda): without a [role]
    prop the function gets a [ServiceRole] of its own. *)
Definition new (scope : path) (id : string) (props : Props) : cdk path :=
  let* this := addChild scope id RConstruct in
  let* _ := newL2 this "ServiceRole"
              (RRole {| AssumeRolePrincipal := "lambda.amazonaws.com";
                        ManagedPolicyArns :=
                          ["service-role/AWSLambdaBasicExecutionRole"];
                        Policies := [] |}) in
  let* _ := addChild this "Resource"
              (RFunction {| Timeout := timeout props;
                            Code := code props;
                            Handler := handler props;
                            Runtime := runtime props |}) in
  ret this.

Definition functionArn (f : path) : value := VGetAtt (defaultChild f) "Arn".

(** [fn.grantInvoke(identity)] *)
Definition grantInvoke (f identity : path) : cdk unit :=
  Role.addToPrincipalPolicy identity
    {| actions := ["lambda:InvokeFunction"];
       resources := [functionArn f; VJoin "" [functionArn f; VStr ":*"]] |}.
End Function.

Definition Runtime_NODEJS_14_X : string := "nodejs14.x".

(** [FilterPattern] (aws-logs) *)
Record IFilterPattern := { logPatternString : string }.

(** [FilterPattern.allEvents()]: the empty pattern, which matches every
    event *)
Definition FilterPattern_allEvents : IFilterPattern :=
  {| logPatternString := "" |}.

(** [new KinesisDestination(stream)] (aws-logs-destinations) *)
Record KinesisDestination := { stream : path }.

Record LogSubscriptionDestinationConfig := {
  arn : value;
  role : option path
}.

(** [Stream.grantWrite(identity)] *)
Definition Stream_grantWrite (s identity : path) : cdk unit :=
  Role.addToPrincipalPolicy identity
    {| actions := ["kinesis:ListShards"; "kinesis:PutRecord"; "kinesis:PutRecords"];
       resources := [Stream.streamArn s] |}.

(** [KinesisDestination.bind(scope, sourceLogGroup)]: a role for
    CloudWatch Logs under the subscription filter (found again if it is
    already there), allowed to write to the stream and to pass itself. *)
Definition KinesisDestination_bind (d : KinesisDestination) (scope : path)
    : cdk LogSubscriptionDestinationConfig :=
  let id := "CloudWatchLogsCanPutRecords" in
  let* found := tryFindChild scope id in
  let* role :=
    match found with
    | Some r => ret r
    | None => Role.new scope id {| Role.assumedBy := "logs.amazonaws.com";
                                   Role.inlinePolicies := [] |}
    end in
  let* _ := Stream_grantWrite (stream d) role in
  let* _ := Role.grantPassRole role role in
  ret {| arn := Stream.streamArn (stream d); role := Some role |}.

Module SubscriptionFilter.
Record Options := {
  destination : KinesisDestination;
  filterPattern : IFilterPattern
}.

(** [new SubscriptionFilter(scope, id, { logGroup, ...options })] *)
Definition new (scope : path) (id : string) (logGroup : path) (props : Options)
    : cdk path :=
  let* this := addChild scope id RConstruct in
  let* destProps := KinesisDestination_bind (destination props) this in
  let* _ := addChild this "Resource"
              (RSubscriptionFilter
                 {| DestinationArn := arn destProps;
                    FilterPattern := logPatternString (filterPattern props);
                    LogGroupName := LogGroup.logGroupName logGroup;
                    RoleArn := Role.roleArn <$> role destProps |}) in
  ret this.
End SubscriptionFilter.

(** [logGroup.addSubscriptionFilter(id, options)]: the filter is a child
    of the log group. *)
Definition addSubscriptionFilter (logGroup : path) (id : string)
    (props : SubscriptionFilter.Options) : cdk path :=
  SubscriptionFilter.new logGroup id logGroup props.

(** [SecretValue] (aws-cdk-lib core): an intrinsic that wraps the value
    it stands for in the template.  [toString()] gives a token for it,
    and synthesis replaces the token by that value. *)
Module SecretValue.
Record t := mk { rawValue : value }.

(** [SecretValue.plainText(secret)]: the secret itself *)
Definition plainText (secret : string) : t := mk (VStr secret).

(** [SecretValue.secretsManager(secretId, options)]: a dynamic
    reference [{{resolve:secretsmanager:id:SecretString:field:stage:version}}] *)
Definition secretsManager (secretId : value)
    (jsonField versionStage versionId : option string) : t :=
  mk (VDynamicReference "secretsmanager"
        [secretId; VStr "SecretString"; VStr (default "" jsonField);
         VStr (default "" versionStage); VStr (default "" versionId)]).

(** [SecretValue.ssmSecure(parameterName, version)] *)
Definition ssmSecure (parameterName version : string) : t :=
  mk (VDynamicReference "ssm-secure" [VStr parameterName; VStr version]).

(** [SecretValue.cfnParameter(param)]: a [Ref] to a NoEcho parameter *)
Definition cfnParameter (param : path) : t := mk (VRef param).

Definition toString (s : t) : value := rawValue s.
End SecretValue.

(** [new CfnDeliveryStream(scope, id, props)] (aws-kinesisfirehose), a
    level-1 construct: the node is the resource. *)
Definition CfnDeliveryStream_new (scope : path) (id : string)
    (props : CfnDeliveryStream) : cdk path :=
  addChild scope id (RDeliveryStream props).

(** [resource.addDependsOn(target)] *)
Definition addDependsOn (r target : path) : cdk unit :=
  update r (fun res =>
    match res with
    | RDeliveryStream d =>
        RDeliveryStream
          {| deliveryStreamType := deliveryStreamType d;
             kinesisStreamSourceConfiguration := kinesisStreamSourceConfiguration d;
             splunkDestinationConfiguration := splunkDestinationConfiguration d;
             dependsOn := dependsOn d ++ [target] |}
    | _ => res
    end).

(** ** constructs/CloudWatchToSplunk.ts *)

Record CloudWatchToSplunkProps := {
  logGroups : list path;            (* LogGroup[] *)
  props_hecEndpoint : string;
  props_hecToken : SecretValue.t
}.

(** The asset directory [join(__dirname, '..', 'lambda',
    'cloudwatch-log-group-processor')], from the repository root. *)
Definition transformer_asset : string := "lambda/cloudwatch-log-group-processor".

(** The callback of the constructor's [forEach], by name. *)
Definition subscribe (ingestStream logGroup : path) : cdk unit :=
  let* _ := addSubscriptionFilter logGroup "kinesis"
              {| SubscriptionFilter.destination := {| stream := ingestStream |};
                 SubscriptionFilter.filterPattern := FilterPattern_allEvents |} in
  ret tt.

Definition CloudWatchToSplunk_new (scope : path) (id : string)
    (props : CloudWatchToSplunkProps) : cdk path :=
  let* this := addChild scope id RConstruct in
  let* ingestStream :=
    Stream.new this "IngestStream"
      {| Stream.streamMode := Some ON_DEMAND;
         Stream.shardCount := None;
         Stream.retentionPeriod := None |} in
  let* _ :=
    forEach (logGroups props) (fun logGroup =>
      let* _ := addSubscriptionFilter logGroup "kinesis"
                  {| SubscriptionFilter.destination := {| stream := ingestStream |};
                     SubscriptionFilter.filterPattern := FilterPattern_allEvents |} in
      ret tt) in
  let* backupBucket :=
    Bucket.new this "BackupBucket"
      {| Bucket.removalPolicy := Some DESTROY;
         Bucket.autoDeleteObjects := Some true |} in
  let* kinesisDeliveryStreamLogs :=
    LogGroup.new this "KinesisDeliveryStreamLogs"
      {| LogGroup.removalPolicy := Some DESTROY;
         LogGroup.retention := Some RetentionDays_ONE_DAY |} in
  let* kinesisErrorsLogStream :=
    LogStream.new this "KinesisErrorLogStream"
      {| LogStream.logGroup := kinesisDeliveryStreamLogs;
         LogStream.logStreamName := Some "errors";
         LogStream.removalPolicy := Some DESTROY |} in
  let* cloudwatchTransformer :=
    Function.new this "CloudWatchTransformer"
      {| Function.timeout := Some (Duration_minutes 5);
         Function.code := transformer_asset;
         Function.handler := "cloudwatch-log-group-processor.handler";
         Function.runtime := Runtime_NODEJS_14_X |} in
  let* deliveryStreamRole :=
    Role.new this "DeliveryStreamRole"
      {| Role.assumedBy := "firehose.amazonaws.com";
         Role.inlinePolicies :=
           [("Ingest",
             [{| resources := [Stream.streamArn ingestStream];
                 actions := ["kinesis:DescribeStream"; "kinesis:GetShardIterator";
                             "kinesis:GetRecords"] |}])] |} in
  let* _ := Bucket.grantWrite backupBucket deliveryStreamRole in
  let* _ := Function.grantInvoke cloudwatchTransformer deliveryStreamRole in
  let* _ := LogGroup.grantWrite kinesisDeliveryStreamLogs deliveryStreamRole in
  let* splunkDeliveryStream :=
    CfnDeliveryStream_new this "DeliveryStream"
      {| deliveryStreamType := "KinesisStreamAsSource";
         kinesisStreamSourceConfiguration :=
           {| kinesisStreamArn := Stream.streamArn ingestStream;
              sourceRoleArn := Role.roleArn deliveryStreamRole |};
         splunkDestinationConfiguration :=
           {| cloudWatchLoggingOptions :=
                {| logGroupName := LogGroup.logGroupName kinesisDeliveryStreamLogs;
                   logStreamName := LogStream.logStreamName_of kinesisErrorsLogStream;
                   enabled := true |};
              processingConfiguration :=
                {| processingEnabled := true;
                   processors :=
                     [{| type := "Lambda";
                         parameters :=
                           [{| parameterName := "LambdaArn";
                               parameterValue :=
                                 Function.functionArn cloudwatchTransformer |};
                            {| parameterName := "RoleArn";
                               parameterValue := Role.roleArn deliveryStreamRole |}] |}] |};
              hecEndpoint := props_hecEndpoint props;
              hecEndpointType := "Raw";
              hecToken := SecretValue.toString (props_hecToken props);
              s3Configuration :=
                {| bucketArn := Bucket.bucketArn backupBucket;
                   s3RoleArn := Role.roleArn deliveryStreamRole |} |};
         dependsOn := [] |} in
  let* _ := addDependsOn splunkDeliveryStream (defaultChild deliveryStreamRole) in
  ret this.

(** *** The set-up of test/CloudWatchToSplunk.test.ts: a stack with one
    log group, and the construct on it. *)
Definition test_stack : path := ["Default"].

Definition test_tree0 : cdk path :=
  let* stack := addChild [] "Default" RConstruct in
  LogGroup.new stack "LogGroup"
    {| LogGroup.removalPolicy := None; LogGroup.retention := None |}.

Definition test_props (logGroup : path) : CloudWatchToSplunkProps :=
  {| props_hecEndpoint := "https://my-endpoint:8088";
     props_hecToken := SecretValue.plainText "value";
     logGroups := [logGroup] |}.

(** The tree a computation leaves behind when it returns. *)
Definition run_tree {A} (m : cdk A) (t : tree) : tree :=
  match m t with
  | Return (_, t') => t'
  | Throw _ => t
  end.

Definition test_logGroup : path := child test_stack "LogGroup".

(** The stack of the test before the construct is added, and after. *)
Definition test_before : tree := run_tree test_tree0 ∅.

Definition test_after : tree :=
  run_tree (CloudWatchToSplunk_new test_stack "CloudWatchToSplunk"
              (test_props test_logGroup)) test_before.

Definition test_this : path := child test_stack "CloudWatchToSplunk".

(** No subscription filter of the tree already names [arn] as its
    destination. *)
Definition no_filter_to (arn : value) (t : tree) : Prop :=
  Forall (fun '(_, r) => match r with
                         | RSubscriptionFilter f => DestinationArn f <> arn
                         | _ => True
                         end) (nodes t).

(** The nodes that [logGroup.addSubscriptionFilter('kinesis', ...)] adds
    under a log group. *)
Definition filter_paths (logGroup : path) : list path :=
  let filter := child logGroup "kinesis" in
  let role := child filter "CloudWatchLogsCanPutRecords" in
  [filter; role; defaultChild role; child role "DefaultPolicy";
   defaultChild (child role "DefaultPolicy"); defaultChild filter].

(** The nodes that the constructor adds under the construct. *)
Definition construct_paths (this : path) : list path :=
  [this;
   child this "IngestStream"; defaultChild (child this "IngestStream");
   child this "BackupBucket"; defaultChild (child this "BackupBucket");
   child this "KinesisDeliveryStreamLogs";
   defaultChild (child this "KinesisDeliveryStreamLogs");
   child this "KinesisErrorLogStream";
   defaultChild (child this "KinesisErrorLogStream");
   child this "CloudWatchTransformer";
   child (child this "CloudWatchTransformer") "ServiceRole";
   defaultChild (child (child this "CloudWatchTransformer") "ServiceRole");
   defaultChild (child this "CloudWatchTransformer");
   child this "DeliveryStreamRole"; defaultChild (child this "DeliveryStreamRole");
   child (child this "DeliveryStreamRole") "DefaultPolicy";
   defaultChild (child (child this "DeliveryStreamRole") "DefaultPolicy");
   child this "DeliveryStream"].

(** None of the paths is taken in the tree. *)
Definition free (ps : list path) (t : tree) : Prop :=
  forall q, q ∈ ps -> t !! q = None.

(** Whether a URL is written with the [https] scheme. *)
Definition is_https (url : string) : bool := String.prefix "https://" url.

(** The test's props, with a plain-HTTP endpoint. *)
Definition http_props : CloudWatchToSplunkProps :=
  {| props_hecEndpoint := "http://my-endpoint:8088";
     props_hecToken := SecretValue.plainText "value";
     logGroups := [test_logGroup] |}.

Definition http_after : tree :=
  run_tree (CloudWatchToSplunk_new test_stack "CloudWatchToSplunk" http_props)
           test_before.

(** Whether a template value is a literal string. *)
Definition is_plaintext (v : value) : bool :=
  match v with
  | VStr _ => true
  | _ => false
  end.

(** Whether a template value is a dynamic reference, resolved by
    CloudFormation at deployment. *)
Definition is_dynamic_reference (v : value) : bool :=
  match v with
  | VDynamicReference _ _ => true
  | _ => false
  end.

(** The token as the repository's stack passes it
    (lib/cloudwatch-logs-to-splunk-stack.ts with
    constructs/SplunkService.ts): [splunkHecToken.secretValue], which is
    [SecretValue.secretsManager(secretArn, { jsonField: '' })] for the
    secret [SplunkHECTokenSecret] of the Splunk service. *)
Definition stack_hecToken : SecretValue.t :=
  SecretValue.secretsManager
    (VRef (defaultChild (child (child test_stack "SplunkService")
                               "SplunkHECTokenSecret")))
    (Some "") None None.

Definition stack_props : CloudWatchToSplunkProps :=
  {| props_hecEndpoint := "https://my-endpoint:8088";
     props_hecToken := stack_hecToken;
     logGroups := [test_logGroup] |}.

Definition stack_after : tree :=
  run_tree (CloudWatchToSplunk_new test_stack "CloudWatchToSplunk" stack_props)
           test_before.

(** What becomes of the objects of a bucket when the bucket is removed
    from its stack, or the stack is deleted (aws-s3, [removalPolicy] and
    [autoDeleteObjects]): a retained bucket keeps them; a bucket to
    destroy is emptied first when [autoDeleteObjects] is set, and
    otherwise cannot be deleted unless it is empty. *)
Definition objects_after_removal {A} (b : CfnBucket) (objects : list A) : list A :=
  match Bucket_DeletionPolicy b with
  | DESTROY => if Bucket_AutoDeleteObjects b then [] else objects
  | RETAIN | SNAPSHOT => objects
  end.

(** * functions/get-public-ip.ts *)

(** ** Regular expressions, as far as the literal of [checkIfValidIP]
    uses them *)

Inductive regex :=
| Char (c : ascii)               (* a literal character, [\.] included *)
| Class (lo hi : ascii)          (* [lo-hi] *)
| Seq (r1 r2 : regex)            (* r1r2 *)
| Alt (r1 r2 : regex)            (* r1|r2 *)
| Repeat (n : nat) (r : regex)   (* r{n} *)
| Bol                            (* ^, without the m flag *)
| Eol.                           (* $, without the m flag *)

(** [Canonicalize] under the [i] flag: a lower-case letter is compared as
    its upper-case form. *)
Definition canonicalize (c : ascii) : ascii :=
  let n := N_of_ascii c in
  if ((97 <=? n) && (n <=? 122))%N then ascii_of_N (n - 32) else c.

(** The characters from [lo] to [hi] *)
Definition class_chars (lo hi : ascii) : list ascii :=
  map ascii_of_nat
      (seq (nat_of_ascii lo) (S (nat_of_ascii hi) - nat_of_ascii lo)).

Definition char_matches (c x : ascii) : bool :=
  Ascii.eqb (canonicalize c) (canonicalize x).

Definition class_matches (lo hi x : ascii) : bool :=
  existsb (fun c => char_matches c x) (class_chars lo hi).

(** A matcher state is the index reached and the input left.  The
    backtracking matcher of the language returns, in the order it would
    try them, the states in which a match of [r] from [st] can end. *)
Fixpoint rmatch (r : regex) (st : nat * string) : list (nat * string) :=
  match r with
  | Char c =>
      match st with
      | (i, String x s) => if char_matches c x then [(S i, s)] else []
      | (_, EmptyString) => []
      end
  | Class lo hi =>
      match st with
      | (i, String x s) => if class_matches lo hi x then [(S i, s)] else []
      | (_, EmptyString) => []
      end
  | Seq r1 r2 => flat_map (rmatch r2) (rmatch r1 st)
  | Alt r1 r2 => rmatch r1 st ++ rmatch r2 st
  | Repeat n r1 => Nat.iter n (flat_map (rmatch r1)) [st]
  | Bol => if Nat.eqb (fst st) 0 then [st] else []
  | Eol => match snd st with EmptyString => [st] | String _ _ => [] end
  end.

Definition matches_at (r : regex) (i : nat) (s : string) : bool :=
  match rmatch r (i, s) with
  | [] => false
  | _ :: _ => true
  end.

(** The search of [RegExp.prototype.exec]: start positions are tried from
    [i] on, the end of the input included. *)
Fixpoint search (r : regex) (i : nat) (s : string) : bool :=
  matches_at r i s ||
  match s with
  | EmptyString => false
  | String _ s' => search r (S i) s'
  end.

(** [regexp.test(s)] on a regular expression just created: [lastIndex]
    is 0, with or without the [g] flag. *)
Definition RegExp_test (r : regex) (s : string) : bool := search r 0 s.

(** ** [checkIfValidIP] *)

(** [[0-9]|[1-9][0-9]|1[0-9]{2}|2[0-4][0-9]|25[0-5]] *)
Definition octet : regex :=
  Alt (Class "0" "9")
 (Alt (Seq (Class "1" "9") (Class "0" "9"))
 (Alt (Seq (Char "1") (Repeat 2 (Class "0" "9")))
 (Alt (Seq (Char "2") (Seq (Class "0" "4") (Class "0" "9")))
      (Seq (Char "2") (Seq (Char "5") (Class "0" "5")))))).

(** [/^((octet)\.){3}(octet)$/gi] *)
Definition regexExp : regex :=
  Seq Bol (Seq (Repeat 3 (Seq octet (Char "."))) (Seq octet Eol)).

Definition checkIfValidIP (ip : string) : result string :=
  if RegExp_test regexExp ip
  then Return ip
  else Throw (Error_new (ip +:+ " does not look valid.")).

(** ** [getPublicIp] *)

Record IPIfyResponse := { ip : string }.

(** [promise.then(f)] and [promise.catch(h)] on settled promises *)
Definition then_ {A B} (p : result A) (f : A -> result B) : result B :=
  match p with
  | Return a => f a
  | Throw e => Throw e
  end.

Definition catch_ {A} (p : result A) (h : Error -> result A) : result A :=
  match p with
  | Return a => Return a
  | Throw e => h e
  end.

(** What the network gives: [fetch] rejects, or resolves to a response
    whose [json()] rejects or resolves to an object of the declared type
    [IPIfyResponse] (the cast [data as IPIfyResponse] checks nothing at
    run time).  A rejection carries an [Error] object, of any name and
    message, as those of [fetch] and [json()] do. *)
Inductive fetched :=
| FetchRejected (e : Error)
| Response (json : result IPIfyResponse).

Definition getPublicIp (network : fetched) : result string :=
  match network with
  | FetchRejected e => Throw e
  | Response json =>
      catch_
        (then_ (then_ json (fun data => Return data))
               (fun data => checkIfValidIP (ip data)))
        (fun err =>
           Throw (Error_new ("Couldn't get your public IP: "
                               +:+ Error_toString err)))
  end.

(** ** Dotted quads *)

(** The decimal numeral of [n], without leading zeros *)
Definition decimal (n : N) : string := NilEmpty.string_of_uint (N.to_uint n).

Definition dotted_quad (a b c d : N) : string :=
  decimal a +:+ "." +:+ decimal b +:+ "." +:+ decimal c +:+ "." +:+ decimal d.

(** An IPv4 address in dotted-quad form: four decimal numbers from 0 to
    255, separated by dots, and nothing else. *)
Definition is_IPv4 (s : string) : Prop :=
  exists a b c d : N,
    (a <= 255 /\ b <= 255 /\ c <= 255 /\ d <= 255)%N /\
    s = dotted_quad a b c d.

(** Every character, for case analysis *)
Definition all_ascii : list ascii := map ascii_of_nat (seq 0 256).

(** The digits of a character, for the numbers that follow. *)
Definition digit (c : ascii) : N := (N_of_ascii c - 48)%N.

(** ** constructs/SplunkService.ts and lib/cloudwatch-logs-to-splunk-stack.ts *)

Module SplunkService.
(** The port that the Splunk Web interface listens on *)
Definition SPLUNK_WEB_PORT : N := 8000.

(** The port that the Splunk HTTP Event Collector listens on *)
Definition SPLUNK_HEC_PORT : N := 8088.

(** [secret.secretValue] (aws-secretsmanager):
    [SecretValue.secretsManager(secretArn, { jsonField: '' })] *)
Definition Secret_secretValue (secret : path) : SecretValue.t :=
  SecretValue.secretsManager (VRef (defaultChild secret)) (Some "") None None.

(** [this.hecToken = splunkHecToken.secretValue], for the secret
    [new Secret(this, 'SplunkHECTokenSecret', ...)] *)
Definition hecToken (this : path) : SecretValue.t :=
  Secret_secretValue (child this "SplunkHECTokenSecret").
End SplunkService.

(** The last statement of the constructor of [CloudwatchLogsToSplunkStack]:
    [new CloudWatchToSplunk(this, 'CloudWatchToSplunk', { hecEndpoint:
    `https://splunk.${hostedZone.zoneName}:${splunkService.SPLUNK_HEC_PORT}`,
    hecToken: splunkService.hecToken, logGroups: [logGroup] })], where
    [logGroup] is [new LogGroup(this, 'LogGroup', ...)], [splunkService] is
    [new SplunkService(this, 'SplunkService', ...)] and [zoneName] is the
    name of the hosted zone that was looked up. *)
Definition CloudwatchLogsToSplunkStack_sendLogs
    (this : path) (zoneName : string) : cdk path :=
  CloudWatchToSplunk_new this "CloudWatchToSplunk"
    {| props_hecEndpoint :=
         "https://splunk." +:+ zoneName +:+ ":"
           +:+ decimal SplunkService.SPLUNK_HEC_PORT;
       props_hecToken := SplunkService.hecToken (child this "SplunkService");
       logGroups := [child this "LogGroup"] |}.

(** ** The characters of an accepted address *)

Definition is_digit (c : ascii) : bool :=
  ((48 <=? N_of_ascii c) && (N_of_ascii c <=? 57))%N.

Definition octet_shape (n : N) : bool :=
  let l := list_ascii_of_string (decimal n) in
  Nat.leb 1 (length l) && Nat.leb (length l) 3 && forallb is_digit l.

(** * Specifications of constructors *)

(** [spec m R P]: whenever [m] returns, its result satisfies [R] and
    every node of the tree is either as it was or now carries a
    resource that satisfies [P] at its path.  Nothing is ever removed. *)
Definition spec {A} (m : cdk A) (R : A -> Prop)
    (P : path -> resource -> Prop) : Prop :=
  forall t a t', m t = Return (a, t') ->
    R a /\ forall q, t' !! q = t !! q \/ exists r, t' !! q = Some r /\ P q r.

(** [returns m t Q]: from the tree [t] the computation [m] returns, with
    a result and a tree that satisfy [Q]. *)
Definition returns {A} (m : cdk A) (t : tree) (Q : A -> tree -> Prop) : Prop :=
  exists a t', m t = Return (a, t') /\ Q a t'.

(** * Reasoning about constructors *)

Lemma tree_lookup_insert_eq (t : tree) p r : <[p := r]> t !! p = Some r.
Proof.
  unfold lookup, insert, tree_lookup, tree_insert. simpl.
  by rewrite decide_True.
Qed.

Lemma tree_lookup_insert_ne (t : tree) p q r : p <> q -> <[p := r]> t !! q = t !! q.
Proof.
  intros Hne. unfold lookup, insert, tree_lookup, tree_insert. simpl.
  by rewrite decide_False.
Qed.

Lemma tree_lookup_alter_eq (t : tree) f p : alter f p t !! p = f <$> t !! p.
Proof.
  unfold lookup, alter, tree_lookup, tree_alter. simpl.
  induction (nodes t) as [| [q r] l IH]; [done |]. simpl.
  destruct (decide (q = p)); [done | exact IH].
Qed.

Lemma tree_lookup_alter_ne (t : tree) f p q : p <> q -> alter f p t !! q = t !! q.
Proof.
  intros Hne. unfold lookup, alter, tree_lookup, tree_alter. simpl.
  induction (nodes t) as [| [q' r] l IH]; [done |]. simpl.
  destruct (decide (q' = q)) as [-> | ?]; [| exact IH].
  by rewrite decide_False.
Qed.

Lemma tree_lookup_nodes (t : tree) p r : t !! p = Some r -> (p, r) ∈ nodes t.
Proof.
  unfold lookup, tree_lookup.
  induction (nodes t) as [| [q r'] l IH]; [done |]. simpl.
  destruct (decide (q = p)) as [-> | ?].
  - intros [= ->]. set_solver.
  - intros H. apply IH in H. set_solver.
Qed.

Arguments child : simpl never.

Lemma child_inj s1 i1 s2 i2 : child s1 i1 = child s2 i2 -> s1 = s2 /\ i1 = i2.
Proof. unfold child. intros H. by apply app_inj_tail in H. Qed.

Lemma child_length p x : length (child p x) = S (length p).
Proof. unfold child. rewrite length_app. simpl. lia. Qed.

Ltac path_len :=
  match goal with
  | H : @eq path _ _ |- _ =>
      apply (f_equal length) in H; rewrite ?child_length in H; lia
  | H : @eq (list string) _ _ |- _ =>
      apply (f_equal length) in H; rewrite ?child_length in H; lia
  end.

(** Two paths built with [child] from literal names differ as soon as a
    name differs, or the lengths do. *)
Ltac path_eq_inv :=
  repeat match goal with
  | H : child _ _ = child _ _ |- _ => apply child_inj in H as [? ?]
  | H : @eq string _ _ |- _ => discriminate H
  end;
  try path_len.

Ltac path_ne := let H := fresh "Hp" in intros H; path_eq_inv.

Lemma bind_Return {A B} (m : cdk A) (k : A -> cdk B) t b t' :
  bind m k t = Return (b, t') ->
  exists a t1, m t = Return (a, t1) /\ k a t1 = Return (b, t').
Proof.
  unfold bind. destruct (m t) as [[a t1]|e]; [eauto | discriminate].
Qed.

Section Spec.
Context {A B : Type}.
Implicit Types (P : path -> resource -> Prop).

Lemma spec_ret (a : A) P : spec (ret a) (fun x => x = a) P.
Proof. intros t x t' [= <- <-]. split; [done | by left]. Qed.

Lemma spec_throw (e : Error) (R : A -> Prop) P : spec (throw e) R P.
Proof. intros t x t' H. discriminate H. Qed.

Lemma spec_weaken (m : cdk A) (R R' : A -> Prop) P P' :
  spec m R P ->
  (forall a, R a -> R' a) ->
  (forall q r, P q r -> P' q r) ->
  spec m R' P'.
Proof.
  intros Hm HR HP t a t' Hrun. destruct (Hm t a t' Hrun) as [Ha Hq].
  split; [by apply HR |]. intros q.
  destruct (Hq q) as [Heq | (r & Hr & HPr)]; [by left | right; eauto].
Qed.

Lemma spec_bind (m : cdk A) (k : A -> cdk B) R (R' : B -> Prop) P :
  spec m R P ->
  (forall a, R a -> spec (k a) R' P) ->
  spec (bind m k) R' P.
Proof.
  intros Hm Hk t b t' Hrun.
  apply bind_Return in Hrun as (a & t1 & H1 & H2).
  destruct (Hm t a t1 H1) as [Ha Hq1].
  destruct (Hk a Ha t1 b t' H2) as [Hb Hq2].
  split; [done |]. intros q.
  destruct (Hq2 q) as [Heq | Hnew]; [| by right].
  rewrite Heq. apply Hq1.
Qed.

End Spec.

Lemma spec_forEach {A} (l : list A) (f : A -> cdk unit) P :
  (forall x, x ∈ l -> spec (f x) (fun _ => True) P) ->
  spec (forEach l f) (fun _ => True) P.
Proof.
  induction l as [| x l IH]; intros Hf; simpl.
  - eapply spec_weaken; [apply (spec_ret tt P) | done | done].
  - eapply spec_bind.
    + apply Hf. set_solver.
    + intros _ _. apply IH. intros y Hy. apply Hf. set_solver.
Qed.

Lemma spec_addChild scope id r :
  spec (addChild scope id r) (fun p => p = child scope id)
       (fun q r' => q = child scope id /\ r' = r).
Proof.
  intros t a t'. unfold addChild.
  destruct (t !! child scope id) eqn:E; [discriminate |].
  intros [= <- <-]. split; [done |]. intros q.
  destruct (decide (q = child scope id)) as [-> | Hne].
  - right. exists r. by rewrite tree_lookup_insert_eq.
  - left. by rewrite tree_lookup_insert_ne.
Qed.

Lemma spec_tryFindChild scope id P :
  spec (tryFindChild scope id)
       (fun o => o = None \/ o = Some (child scope id)) P.
Proof.
  intros t a t'. unfold tryFindChild.
  destruct (t !! child scope id); intros [= <- <-];
    (split; [auto | intros q; by left]).
Qed.

Lemma spec_update p f :
  spec (update p f) (fun _ => True)
       (fun q r' => q = p /\ exists r, r' = f r).
Proof.
  intros t a t'. unfold update. intros [= <- <-]. split; [done |]. intros q.
  destruct (decide (q = p)) as [-> | Hne].
  - rewrite tree_lookup_alter_eq. destruct (t !! p) as [r |] eqn:E; [| by left].
    right. exists (f r). eauto.
  - left. by rewrite tree_lookup_alter_ne.
Qed.

(** A node that already carries [r] keeps it under every computation
    that writes nothing but [r] there. *)
Lemma spec_keep {A} (m : cdk A) R X r t a t' :
  m t = Return (a, t') ->
  t !! X = Some r ->
  spec m R (fun q r' => q = X -> r' = r) ->
  t' !! X = Some r.
Proof.
  intros Hrun HX Hm. destruct (Hm t a t' Hrun) as [_ Hq].
  destruct (Hq X) as [-> | (r' & -> & Hr')]; [done |]. by rewrite Hr'.
Qed.

(** Conversely, what is in the tree afterwards was there before or
    satisfies [P]. *)
Lemma spec_new {A} (m : cdk A) R P t a t' q r :
  m t = Return (a, t') ->
  t' !! q = Some r ->
  spec m R P ->
  t !! q = Some r \/ P q r.
Proof.
  intros Hrun Hq Hm. destruct (Hm t a t' Hrun) as [_ H].
  destruct (H q) as [<- | (r' & Hr' & HP)]; [by left |].
  right. congruence.
Qed.

Lemma spec_result {A} (m : cdk A) R P t a t' :
  m t = Return (a, t') -> spec m R P -> R a.
Proof. intros Hrun Hm. by destruct (Hm t a t' Hrun). Qed.

(** The two in-place updates of the repository change a node only when
    it is of the expected kind. *)
Lemma spec_addStatement p st :
  spec (update p (Role.addStatement st)) (fun _ => True)
       (fun q r' => q = p /\ exists pol, r' = RPolicy pol).
Proof.
  intros t a t'. unfold update. intros [= <- <-]. split; [done |]. intros q.
  destruct (decide (q = p)) as [-> | Hne]; [| left; by rewrite tree_lookup_alter_ne].
  rewrite tree_lookup_alter_eq.
  destruct (t !! p) as [[]|] eqn:E; cbn;
    first [ by left | right; eexists; split; [reflexivity | eauto] ].
Qed.

Lemma spec_addDependsOn p target :
  spec (addDependsOn p target) (fun _ => True)
       (fun q r' => q = p /\ exists d, r' = RDeliveryStream d).
Proof.
  intros t a t'. unfold addDependsOn, update. intros [= <- <-].
  split; [done |]. intros q.
  destruct (decide (q = p)) as [-> | Hne]; [| left; by rewrite tree_lookup_alter_ne].
  rewrite tree_lookup_alter_eq.
  destruct (t !! p) as [[]|] eqn:E; cbn;
    first [ by left | right; eexists; split; [reflexivity | eauto] ].
Qed.

Lemma spec_weaken_R {A} (m : cdk A) (R R' : A -> Prop) P :
  spec m R P -> (forall a, R a -> R' a) -> spec m R' P.
Proof. intros Hm HR. by eapply spec_weaken. Qed.

Lemma spec_ret' {A} (a : A) (R : A -> Prop) P : R a -> spec (ret a) R P.
Proof. intros Ha t x t' [= <- <-]. split; [done | intros q; by left]. Qed.

Arguments bind : simpl never.
Arguments ret : simpl never.
Arguments throw : simpl never.
Arguments addChild : simpl never.
Arguments tryFindChild : simpl never.
Arguments update : simpl never.
Arguments forEach : simpl never.

Ltac head_of t :=
  lazymatch t with
  | ?f _ => head_of f
  | _ => t
  end.

(** What the result of a step is known to be, once it is bound. *)
Ltac spec_intro Ha :=
  cbn beta in Ha;
  repeat match type of Ha with
         | _ \/ _ => destruct Ha as [Ha | Ha]
         end;
  try subst; cbn.

Ltac spec_R :=
  first [ intros ? ?; eassumption
        | intros; subst; solve [auto]
        | intros [] ?; reflexivity ].

(** Walks through a constructor statement by statement; [tac] has to show
    that what a primitive step writes is allowed by the specification. *)
Ltac spec_go tac :=
  lazymatch goal with
  | |- spec (bind _ _) _ _ =>
      eapply spec_bind;
      [ spec_go tac
      | let a := fresh "a" in
        let Ha := fresh "Ha" in
        intros a Ha; spec_intro Ha; spec_go tac ]
  | |- spec (ret _) _ _ =>
      first [ apply spec_ret | apply spec_ret'; lazy beta; solve [auto] ]
  | |- spec (throw _) _ _ => apply spec_throw
  | |- spec (addChild _ _ _) _ _ =>
      eapply spec_weaken; [apply spec_addChild | spec_R | tac]
  | |- spec (tryFindChild _ _) _ _ =>
      eapply spec_weaken_R; [apply spec_tryFindChild | spec_R]
  | |- spec (update _ (Role.addStatement _)) _ _ =>
      eapply spec_weaken; [apply spec_addStatement | spec_R | tac]
  | |- spec (addDependsOn _ _) _ _ =>
      eapply spec_weaken; [apply spec_addDependsOn | spec_R | tac]
  | |- spec (update _ _) _ _ =>
      eapply spec_weaken; [apply spec_update | spec_R | tac]
  | |- spec (forEach _ _) _ _ =>
      eapply spec_weaken_R;
      [ apply spec_forEach; intros ? ?; spec_go tac | spec_R ]
  | |- spec (match ?x with _ => _ end) _ _ => destruct x; spec_go tac
  | |- spec ?m _ _ => let h := head_of m in unfold h; cbn; spec_go tac
  end.

(** [tac] for "the node at [X] is only ever given [r]" *)
Ltac keep_side :=
  intros ? ? ? ?; lazy beta in *;
  repeat match goal with
         | H : _ /\ _ |- _ => destruct H
         | H : exists _, _ |- _ => destruct H
         end;
  subst; path_eq_inv; subst; try reflexivity.

(** ** What the primitive constructors return *)

Lemma addChild_Return scope id r t p t' :
  addChild scope id r t = Return (p, t') ->
  p = child scope id /\ t !! child scope id = None /\
  t' = <[child scope id := r]> t.
Proof.
  unfold addChild. destruct (t !! child scope id); [discriminate |].
  by intros [= <- <-].
Qed.

Lemma newL2_Return scope id r t p t' :
  newL2 scope id r t = Return (p, t') ->
  p = child scope id /\
  t' = <[child (child scope id) "Resource" := r]>
         (<[child scope id := RConstruct]> t).
Proof.
  unfold newL2. intros H.
  apply bind_Return in H as (this & t1 & H1 & H).
  apply addChild_Return in H1 as (-> & _ & ->).
  apply bind_Return in H as (res & t2 & H2 & H).
  apply addChild_Return in H2 as (-> & _ & ->).
  by injection H as <- <-.
Qed.

Lemma newL2_lookup scope id r t p t' :
  newL2 scope id r t = Return (p, t') ->
  p = child scope id /\ t' !! defaultChild p = Some r.
Proof.
  intros H. apply newL2_Return in H as (-> & ->).
  split; [done |]. by rewrite tree_lookup_insert_eq.
Qed.

(** ** What [KinesisDestination.bind] returns, and the filter it leads to *)

Lemma KinesisDestination_bind_result d scope :
  spec (KinesisDestination_bind d scope)
       (fun c => c = {| arn := Stream.streamArn (stream d);
                        role := Some (child scope "CloudWatchLogsCanPutRecords") |})
       (fun _ _ => True).
Proof. spec_go ltac:(done). Qed.

Lemma subscribe_filter ingestStream logGroup t u t' :
  subscribe ingestStream logGroup t = Return (u, t') ->
  t' !! defaultChild (child logGroup "kinesis") =
    Some (RSubscriptionFilter
            {| DestinationArn := Stream.streamArn ingestStream;
               FilterPattern := "";
               LogGroupName := LogGroup.logGroupName logGroup;
               RoleArn := Some (Role.roleArn
                 (child (child logGroup "kinesis") "CloudWatchLogsCanPutRecords")) |}).
Proof.
  unfold subscribe, addSubscriptionFilter, SubscriptionFilter.new. intros H.
  apply bind_Return in H as (a & t1 & H & Hret). injection Hret as _ <-.
  apply bind_Return in H as (this & t2 & H2 & H).
  apply addChild_Return in H2 as (-> & _ & ->).
  apply bind_Return in H as (c & t3 & H3 & H).
  pose proof (spec_result _ _ _ _ _ _ H3
                (KinesisDestination_bind_result _ _)) as Hc.
  cbn beta in Hc. subst c. cbn in H.
  apply bind_Return in H as (res & t4 & H4 & H). injection H as _ <-.
  apply addChild_Return in H4 as (-> & _ & ->).
  by rewrite tree_lookup_insert_eq.
Qed.

Lemma forEach_filters ingestStream logGroups t u t' :
  forEach logGroups (subscribe ingestStream) t = Return (u, t') ->
  forall logGroup, logGroup ∈ logGroups ->
  t' !! defaultChild (child logGroup "kinesis") =
    Some (RSubscriptionFilter
            {| DestinationArn := Stream.streamArn ingestStream;
               FilterPattern := "";
               LogGroupName := LogGroup.logGroupName logGroup;
               RoleArn := Some (Role.roleArn
                 (child (child logGroup "kinesis") "CloudWatchLogsCanPutRecords")) |}).
Proof.
  revert t. induction logGroups as [| x l IH]; intros t H lg Hlg.
  - by apply elem_of_nil in Hlg.
  - change (forEach (x :: l) (subscribe ingestStream))
      with (let* _ := subscribe ingestStream x in
            forEach l (subscribe ingestStream)) in H.
    apply bind_Return in H as (a & t1 & Hx & H).
    apply elem_of_cons in Hlg as [-> | Hlg]; [| by eapply IH].
    apply subscribe_filter in Hx.
    eapply (spec_keep _ _ _ _ _ _ _ H Hx).
    unfold subscribe. spec_go keep_side.
Qed.

Lemma Function_new_Return scope id props t p t' :
  Function.new scope id props t = Return (p, t') ->
  p = child scope id /\
  t' !! defaultChild p =
    Some (RFunction {| Timeout := Function.timeout props;
                       Code := Function.code props;
                       Handler := Function.handler props;
                       Runtime := Function.runtime props |}).
Proof.
  unfold Function.new. intros H.
  apply bind_Return in H as (this & t1 & H1 & H).
  apply addChild_Return in H1 as (-> & _ & ->).
  apply bind_Return in H as (sr & t2 & _ & H).
  apply bind_Return in H as (res & t3 & H3 & H).
  apply addChild_Return in H3 as (-> & _ & ->).
  injection H as <- <-. split; [done |]. by rewrite tree_lookup_insert_eq.
Qed.

(** ** The resources of a [CloudWatchToSplunk] construct

    Whenever the constructor returns, the tree holds the following
    resources under the construct (and, for the subscription filters,
    under the log groups). *)

Ltac keep_from H HX :=
  eapply (spec_keep _ _ _ _ _ _ _ H) in HX; [| spec_go keep_side].

Lemma CloudWatchToSplunk_new_path scope id props :
  spec (CloudWatchToSplunk_new scope id props)
       (fun p => p = child scope id) (fun _ _ => True).
Proof. spec_go ltac:(done). Qed.

Lemma CloudWatchToSplunk_new_Return scope id props t0 this t' :
  CloudWatchToSplunk_new scope id props t0 = Return (this, t') ->
  this = child scope id /\
  t' !! defaultChild (child this "IngestStream") =
    Some (RStream {| RetentionPeriodHours := 24;
                     ShardCount := None;
                     StreamModeDetails := Some ON_DEMAND |}) /\
  (forall logGroup, logGroup ∈ logGroups props ->
     t' !! defaultChild (child logGroup "kinesis") =
       Some (RSubscriptionFilter
               {| DestinationArn := Stream.streamArn (child this "IngestStream");
                  FilterPattern := "";
                  LogGroupName := LogGroup.logGroupName logGroup;
                  RoleArn := Some (Role.roleArn
                    (child (child logGroup "kinesis")
                       "CloudWatchLogsCanPutRecords")) |})) /\
  t' !! defaultChild (child this "BackupBucket") =
    Some (RBucket {| Bucket_DeletionPolicy := DESTROY;
                     Bucket_AutoDeleteObjects := true |}) /\
  t' !! defaultChild (child this "KinesisDeliveryStreamLogs") =
    Some (RLogGroup {| LogGroup_DeletionPolicy := DESTROY;
                       RetentionInDays := Some 1%N |}) /\
  t' !! defaultChild (child this "KinesisErrorLogStream") =
    Some (RLogStream
            {| LogStream_LogGroupName :=
                 LogGroup.logGroupName (child this "KinesisDeliveryStreamLogs");
               LogStream_LogStreamName := Some "errors";
               LogStream_DeletionPolicy := DESTROY |}) /\
  t' !! defaultChild (child this "CloudWatchTransformer") =
    Some (RFunction {| Timeout := Some 300%N;
                       Code := "lambda/cloudwatch-log-group-processor";
                       Handler := "cloudwatch-log-group-processor.handler";
                       Runtime := "nodejs14.x" |}) /\
  t' !! defaultChild (child this "DeliveryStreamRole") =
    Some (RRole
            {| AssumeRolePrincipal := "firehose.amazonaws.com";
               ManagedPolicyArns := [];
               Policies :=
                 [("Ingest",
                   [{| actions := ["kinesis:DescribeStream";
                                   "kinesis:GetShardIterator";
                                   "kinesis:GetRecords"];
                       resources :=
                         [Stream.streamArn (child this "IngestStream")] |}])] |}) /\
  t' !! child this "DeliveryStream" =
    Some (RDeliveryStream
      {| deliveryStreamType := "KinesisStreamAsSource";
         kinesisStreamSourceConfiguration :=
           {| kinesisStreamArn := Stream.streamArn (child this "IngestStream");
              sourceRoleArn := Role.roleArn (child this "DeliveryStreamRole") |};
         splunkDestinationConfiguration :=
           {| cloudWatchLoggingOptions :=
                {| logGroupName :=
                     LogGroup.logGroupName (child this "KinesisDeliveryStreamLogs");
                   logStreamName :=
                     LogStream.logStreamName_of (child this "KinesisErrorLogStream");
                   enabled := true |};
              processingConfiguration :=
                {| processingEnabled := true;
                   processors :=
                     [{| type := "Lambda";
                         parameters :=
                           [{| parameterName := "LambdaArn";
                               parameterValue :=
                                 Function.functionArn
                                   (child this "CloudWatchTransformer") |};
                            {| parameterName := "RoleArn";
                               parameterValue :=
                                 Role.roleArn (child this "DeliveryStreamRole") |}] |}] |};
              hecEndpoint := props_hecEndpoint props;
              hecEndpointType := "Raw";
              hecToken := SecretValue.rawValue (props_hecToken props);
              s3Configuration :=
                {| bucketArn := Bucket.bucketArn (child this "BackupBucket");
                   s3RoleArn := Role.roleArn (child this "DeliveryStreamRole") |} |};
         dependsOn := [defaultChild (child this "DeliveryStreamRole")] |}).
Proof.
  intros H.
  pose proof (spec_result _ _ _ _ _ _ H
                (CloudWatchToSplunk_new_path _ _ _)) as Hthis.
  cbn beta in Hthis. subst this. split; [done |].
  unfold CloudWatchToSplunk_new in H.
  apply bind_Return in H as (a & t1 & H1 & H).
  apply addChild_Return in H1 as (-> & _ & ->).
  (* the ingest stream *)
  apply bind_Return in H as (s & t2 & H2 & H).
  unfold Stream.new in H2; cbn in H2.
  apply newL2_lookup in H2 as (-> & Hstream).
  keep_from H Hstream.
  (* the subscription filters *)
  apply bind_Return in H as (u & t3 & Hfe & H).
  assert (Hfilters : forall logGroup, logGroup ∈ logGroups props ->
     t' !! defaultChild (child logGroup "kinesis") =
       Some (RSubscriptionFilter
               {| DestinationArn :=
                    Stream.streamArn (child (child scope id) "IngestStream");
                  FilterPattern := "";
                  LogGroupName := LogGroup.logGroupName logGroup;
                  RoleArn := Some (Role.roleArn
                    (child (child logGroup "kinesis")
                       "CloudWatchLogsCanPutRecords")) |})).
  { intros lg Hlg.
    pose proof (forEach_filters _ _ _ _ _ Hfe lg Hlg) as Hf.
    keep_from H Hf. exact Hf. }
  (* the backup bucket *)
  apply bind_Return in H as (b & t4 & H4 & H).
  unfold Bucket.new in H4; cbn in H4.
  apply newL2_lookup in H4 as (-> & Hbucket).
  keep_from H Hbucket.
  (* the log group and log stream for delivery errors *)
  apply bind_Return in H as (g & t5 & H5 & H).
  apply newL2_lookup in H5 as (-> & Hgroup).
  keep_from H Hgroup.
  apply bind_Return in H as (ls & t6 & H6 & H).
  apply newL2_lookup in H6 as (-> & Hlogs).
  keep_from H Hlogs.
  (* the transform function *)
  apply bind_Return in H as (f & t7 & H7 & H).
  apply Function_new_Return in H7 as (-> & Hfun).
  keep_from H Hfun.
  (* the role of the delivery stream, and its grants *)
  apply bind_Return in H as (r & t8 & H8 & H).
  apply newL2_lookup in H8 as (-> & Hrole).
  keep_from H Hrole.
  apply bind_Return in H as (? & ? & _ & H).
  apply bind_Return in H as (? & ? & _ & H).
  apply bind_Return in H as (? & ? & _ & H).
  (* the delivery stream *)
  apply bind_Return in H as (ds & t9 & H9 & H).
  apply addChild_Return in H9 as (-> & _ & ->).
  apply bind_Return in H as (? & t10 & H10 & H).
  unfold addDependsOn, update in H10.
  injection H10 as _ <-. injection H as <-.
  repeat split; try assumption.
  by rewrite tree_lookup_alter_eq, tree_lookup_insert_eq.
Qed.

(** The only subscription filters the constructor adds are those of the
    log groups it was given, each under its log group as [kinesis]. *)
Ltac filter_side :=
  intros ? ? ? ? ?; lazy beta in *;
  repeat match goal with
         | H : _ /\ _ |- _ => destruct H
         | H : exists _, _ |- _ => destruct H
         end;
  subst;
  first [ discriminate | eexists; split; [eassumption | reflexivity] ].

Lemma CloudWatchToSplunk_new_filters scope id props :
  spec (CloudWatchToSplunk_new scope id props) (fun _ => True)
       (fun q r => forall f, r = RSubscriptionFilter f ->
          exists logGroup, logGroup ∈ logGroups props /\
                           q = defaultChild (child logGroup "kinesis")).
Proof. spec_go filter_side. Qed.

(** ** When the constructor returns

    In this model, whose [addChild] refuses taken names only, it does on
    a tree in which the paths of its nodes are free, for log groups that
    are pairwise distinct and have no child [kinesis] yet. *)

Lemma bind_run {A B} (m : cdk A) (k : A -> cdk B) t a t1 :
  m t = Return (a, t1) -> bind m k t = k a t1.
Proof. unfold bind. by intros ->. Qed.

Lemma addChild_fresh scope id r t :
  t !! child scope id = None ->
  addChild scope id r t = Return (child scope id, <[child scope id := r]> t).
Proof. unfold addChild. by intros ->. Qed.

Lemma tryFindChild_fresh scope id t :
  t !! child scope id = None -> tryFindChild scope id t = Return (None, t).
Proof. unfold tryFindChild. by intros ->. Qed.

Lemma tryFindChild_found scope id r t :
  t !! child scope id = Some r ->
  tryFindChild scope id t = Return (Some (child scope id), t).
Proof. unfold tryFindChild. by intros ->. Qed.

Lemma newL2_fresh scope id r t :
  t !! child scope id = None ->
  t !! defaultChild (child scope id) = None ->
  newL2 scope id r t =
    Return (child scope id,
            <[defaultChild (child scope id) := r]>
              (<[child scope id := RConstruct]> t)).
Proof.
  intros H1 H2. unfold newL2.
  rewrite (bind_run _ _ _ _ _ (addChild_fresh _ _ _ _ H1)).
  erewrite bind_run; [done |]. apply addChild_fresh.
  rewrite tree_lookup_insert_ne; [done |]. intros E. path_len.
Qed.

Lemma returns_bind {A B} (m : cdk A) (k : A -> cdk B) t Q :
  returns m t (fun a t1 => returns (k a) t1 Q) -> returns (bind m k) t Q.
Proof.
  intros (a & t1 & Hm & b & t' & Hk & HQ). exists b, t'.
  split; [| done]. by rewrite (bind_run _ _ _ _ _ Hm).
Qed.

Lemma returns_ret {A} (a : A) t (Q : A -> tree -> Prop) :
  Q a t -> returns (ret a) t Q.
Proof. intros HQ. by exists a, t. Qed.

Lemma returns_addChild scope id r t (Q : path -> tree -> Prop) :
  t !! child scope id = None ->
  Q (child scope id) (<[child scope id := r]> t) ->
  returns (addChild scope id r) t Q.
Proof.
  intros Hfresh HQ. eexists _, _. split; [by apply addChild_fresh | done].
Qed.

Lemma returns_tryFindChild_fresh scope id t (Q : option path -> tree -> Prop) :
  t !! child scope id = None -> Q None t ->
  returns (tryFindChild scope id) t Q.
Proof.
  intros Hfresh HQ. eexists _, _. split; [by apply tryFindChild_fresh | done].
Qed.

Lemma returns_tryFindChild_found scope id r t (Q : option path -> tree -> Prop) :
  t !! child scope id = Some r -> Q (Some (child scope id)) t ->
  returns (tryFindChild scope id) t Q.
Proof.
  intros Hfound HQ. eexists _, _.
  split; [by eapply tryFindChild_found | done].
Qed.

Lemma returns_update p f t (Q : unit -> tree -> Prop) :
  Q tt (alter f p t) -> returns (update p f) t Q.
Proof. intros HQ. by exists tt, (alter f p t). Qed.

Ltac lookup_simpl :=
  repeat first [ rewrite tree_lookup_insert_ne by path_ne
               | rewrite tree_lookup_alter_ne by path_ne ].

(** [tac] has to show that a path is not yet in the tree the
    computation started from. *)
Ltac returns_go tac :=
  lazymatch goal with
  | |- returns (bind _ _) _ _ => apply returns_bind; returns_go tac
  | |- returns (ret _) _ _ => apply returns_ret; cbv beta; try returns_go tac
  | |- returns (addChild _ _ _) _ _ =>
      apply returns_addChild;
      [ lookup_simpl; tac | cbv beta; try returns_go tac ]
  | |- returns (tryFindChild _ _) _ _ =>
      first [ eapply returns_tryFindChild_found;
              [ lookup_simpl;
                repeat (rewrite tree_lookup_alter_eq; lookup_simpl);
                rewrite tree_lookup_insert_eq; reflexivity
              | cbv beta; cbn; try returns_go tac ]
            | apply returns_tryFindChild_fresh;
              [ lookup_simpl; tac | cbv beta; cbn; try returns_go tac ] ]
  | |- returns (update _ _) _ _ =>
      apply returns_update; cbv beta; try returns_go tac
  | |- returns (addDependsOn _ _) _ _ =>
      apply returns_update; cbv beta; try returns_go tac
  | |- returns (forEach _ _) _ _ => idtac
  | |- returns ?m _ _ => let h := head_of m in unfold h; cbn; returns_go tac
  end.


Lemma returns_mono {A} (m : cdk A) t (Q Q' : A -> tree -> Prop) :
  returns m t Q -> (forall a t', Q a t' -> Q' a t') -> returns m t Q'.
Proof. intros (a & t' & Hm & HQ) H. exists a, t'. auto. Qed.

Lemma returns_spec {A} (m : cdk A) t R P :
  returns m t (fun _ _ => True) ->
  spec m R P ->
  returns m t (fun a t' =>
    R a /\ forall q, t' !! q = t !! q \/ exists r, t' !! q = Some r /\ P q r).
Proof.
  intros (a & t' & Hm & _) Hs. exists a, t'. split; [done |]. by apply Hs.
Qed.

Ltac in_paths :=
  cbn; repeat (apply elem_of_cons; first [ left; reflexivity | right ]).

Lemma subscribe_succeeds ingestStream logGroup t :
  free (filter_paths logGroup) t ->
  returns (subscribe ingestStream logGroup) t (fun _ _ => True).
Proof.
  intros Hfree. returns_go ltac:(apply Hfree; in_paths). done.
Qed.

Lemma subscribe_modifies ingestStream logGroup :
  spec (subscribe ingestStream logGroup) (fun _ => True)
       (fun q _ => q ∈ filter_paths logGroup).
Proof.
  unfold subscribe.
  spec_go ltac:(intros ? ? ?; lazy beta in *;
                repeat match goal with
                       | H : _ /\ _ |- _ => destruct H
                       end; subst; in_paths).
Qed.

Lemma filter_paths_inj q logGroup logGroup' :
  q ∈ filter_paths logGroup -> q ∈ filter_paths logGroup' ->
  logGroup = logGroup'.
Proof.
  unfold filter_paths. cbn. rewrite !elem_of_cons, !elem_of_nil.
  intros H H'.
  repeat match goal with
         | H : _ \/ _ |- _ => destruct H as [H | H]
         | H : False |- _ => destruct H
         end; subst; path_eq_inv; try done; try path_len.
Qed.

Lemma forEach_subscribe_succeeds ingestStream logGroups t (Q : unit -> tree -> Prop) :
  NoDup logGroups ->
  (forall lg, lg ∈ logGroups -> free (filter_paths lg) t) ->
  (forall t',
     (forall q, (forall lg, lg ∈ logGroups -> q ∉ filter_paths lg) ->
                t' !! q = t !! q) ->
     Q tt t') ->
  returns (forEach logGroups (subscribe ingestStream)) t Q.
Proof.
  revert t Q. induction logGroups as [| x l IH]; intros t Q Hnd Hfree HQ.
  - apply returns_ret. by apply HQ.
  - apply NoDup_cons in Hnd as [Hx Hnd].
    change (forEach (x :: l) (subscribe ingestStream))
      with (let* _ := subscribe ingestStream x in
            forEach l (subscribe ingestStream)).
    apply returns_bind.
    eapply returns_mono.
    { apply returns_spec; [| apply subscribe_modifies].
      apply subscribe_succeeds, Hfree. apply elem_of_cons. by left. }
    cbv beta. intros _ t1 [_ Hframe].
    assert (Hsame : forall q, q ∉ filter_paths x -> t1 !! q = t !! q).
    { intros q Hq. by destruct (Hframe q) as [-> | (r & _ & ?)]. }
    apply IH; [done | |].
    + intros lg Hlg q Hq. rewrite Hsame.
      * apply (Hfree lg); [apply elem_of_cons; by right | done].
      * intros Hqx. apply Hx. by rewrite (filter_paths_inj q x lg Hqx Hq).
    + intros t' Ht'. apply HQ. intros q Hq. rewrite Ht'.
      * apply Hsame, Hq, elem_of_cons. by left.
      * intros lg Hlg. apply Hq, elem_of_cons. by right.
Qed.

Ltac not_in_filter_paths :=
  let H := fresh "Hq" in
  unfold filter_paths; cbn; rewrite !elem_of_cons, elem_of_nil; intros H;
  repeat match type of H with
         | _ \/ _ => destruct H as [H | H]
         | False => destruct H
         end; path_eq_inv.

Lemma CloudWatchToSplunk_new_succeeds scope id props t0 :
  free (construct_paths (child scope id)) t0 ->
  NoDup (logGroups props) ->
  (forall lg, lg ∈ logGroups props ->
     free (filter_paths lg) t0 /\ child scope id ∉ filter_paths lg) ->
  exists t', CloudWatchToSplunk_new scope id props t0 = Return (child scope id, t').
Proof.
  intros Hfree Hnd Hlgs.
  assert (H : returns (CloudWatchToSplunk_new scope id props) t0
                (fun p _ => p = child scope id)).
  { unfold CloudWatchToSplunk_new.
    returns_go ltac:(apply Hfree; in_paths).
    apply forEach_subscribe_succeeds; [done | |].
    - intros lg Hlg q Hq. destruct (Hlgs lg Hlg) as [Hf Hthis].
      rewrite !tree_lookup_insert_ne; [by apply Hf | |  |].
      all: intros <-; revert Hq; first [exact Hthis | not_in_filter_paths].
    - intros t' Hframe.
      returns_go ltac:(rewrite Hframe;
                       [ lookup_simpl; apply Hfree; in_paths
                       | intros lg Hlg; not_in_filter_paths ]).
      reflexivity. }
  destruct H as (p & t' & H & ->). eauto.
Qed.

(** The constructor does not look at [hecEndpoint]: where it returns for
    one endpoint, it returns for every other. *)
Lemma CloudWatchToSplunk_new_any_endpoint scope id props t0 this t' endpoint :
  CloudWatchToSplunk_new scope id props t0 = Return (this, t') ->
  exists t'',
    CloudWatchToSplunk_new scope id
      {| logGroups := logGroups props;
         props_hecEndpoint := endpoint;
         props_hecToken := props_hecToken props |} t0
    = Return (this, t'').
Proof.
  unfold CloudWatchToSplunk_new. cbn [logGroups props_hecEndpoint props_hecToken].
  intros H.
  repeat (let Hstep := fresh "Hstep" in
          apply bind_Return in H as (? & ? & Hstep & H);
          rewrite (bind_run _ _ _ _ _ Hstep); clear Hstep).
  apply bind_Return in H as (ds & t9 & H9 & H).
  apply addChild_Return in H9 as (-> & Hfresh & ->).
  erewrite bind_run; [| by apply addChild_fresh].
  apply bind_Return in H as (u & t10 & _ & H). injection H as <- _.
  erewrite bind_run; [| reflexivity]. eauto.
Qed.

(** * Properties of the construct *)

(** C6: the ingest stream of every [CloudWatchToSplunk] construct is
    synthesized in on-demand mode ([StreamModeDetails.StreamMode =
    ON_DEMAND]) and without a shard count. *)
Theorem ingest_stream_on_demand scope id props t0 this t' :
  CloudWatchToSplunk_new scope id props t0 = Return (this, t') ->
  exists s,
    t' !! defaultChild (child this "IngestStream") = Some (RStream s) /\
    StreamModeDetails s = Some ON_DEMAND /\
    ShardCount s = None.
Proof.
  intros H. apply CloudWatchToSplunk_new_Return in H as (_ & Hs & _).
  eexists. split; [exact Hs |]. by split.
Qed.

Lemma ingest_stream_on_demand_witness :
  exists s,
    test_after !! defaultChild (child test_this "IngestStream") = Some (RStream s) /\
    StreamModeDetails s = Some ON_DEMAND /\
    ShardCount s = None.
Proof.
  apply (ingest_stream_on_demand test_stack "CloudWatchToSplunk"
           (test_props test_logGroup) test_before).
  vm_compute. reflexivity.
Defined.

(** [new Stream] with no [retentionPeriod] prop: whenever it returns,
    the stream it declares is kept for 24 hours. *)
Lemma Stream_new_default_retention scope id props t s t' :
  Stream.retentionPeriod props = None ->
  Stream.new scope id props t = Return (s, t') ->
  exists r, t' !! defaultChild s = Some (RStream r) /\
            RetentionPeriodHours r = 24%N.
Proof.
  unfold Stream.new. intros ->. cbn.
  destruct (Stream.streamMode props) as [[]|], (Stream.shardCount props);
    try discriminate; intros H; apply newL2_lookup in H as (-> & H); eauto.
Qed.

(** C7: the construct passes no [retentionPeriod] to its ingest stream,
    and the stream is synthesized with the default,
    [RetentionPeriodHours = 24]. *)
Theorem ingest_stream_retention scope id props t0 this t' :
  CloudWatchToSplunk_new scope id props t0 = Return (this, t') ->
  exists s,
    t' !! defaultChild (child this "IngestStream") = Some (RStream s) /\
    RetentionPeriodHours s = 24%N.
Proof.
  intros H. apply CloudWatchToSplunk_new_Return in H as (_ & Hs & _).
  eexists. split; [exact Hs | done].
Qed.

Lemma ingest_stream_retention_witness :
  exists s,
    test_after !! defaultChild (child test_this "IngestStream") = Some (RStream s) /\
    RetentionPeriodHours s = 24%N.
Proof.
  apply (ingest_stream_retention test_stack "CloudWatchToSplunk"
           (test_props test_logGroup) test_before).
  vm_compute. reflexivity.
Defined.

(** C1: the delivery stream of every [CloudWatchToSplunk] construct has
    processing enabled, with exactly one processor; the processor is of
    type [Lambda] and its [LambdaArn] is the ARN of the construct's
    [CloudWatchTransformer] function, the function whose handler is
    [cloudwatch-log-group-processor.handler]. *)
Theorem delivery_stream_processing scope id props t0 this t' :
  CloudWatchToSplunk_new scope id props t0 = Return (this, t') ->
  exists ds fn,
    t' !! child this "DeliveryStream" = Some (RDeliveryStream ds) /\
    t' !! defaultChild (child this "CloudWatchTransformer") = Some (RFunction fn) /\
    Handler fn = "cloudwatch-log-group-processor.handler" /\
    Code fn = "lambda/cloudwatch-log-group-processor" /\
    let pc := processingConfiguration (splunkDestinationConfiguration ds) in
    processingEnabled pc = true /\
    processors pc =
      [{| type := "Lambda";
          parameters :=
            [{| parameterName := "LambdaArn";
                parameterValue :=
                  VGetAtt (defaultChild (child this "CloudWatchTransformer")) "Arn" |};
             {| parameterName := "RoleArn";
                parameterValue :=
                  VGetAtt (defaultChild (child this "DeliveryStreamRole")) "Arn" |}] |}].
Proof.
  intros H.
  apply CloudWatchToSplunk_new_Return
    in H as (_ & _ & _ & _ & _ & _ & Hfn & _ & Hds).
  eexists _, _. split; [exact Hds |]. split; [exact Hfn |]. done.
Qed.

Lemma delivery_stream_processing_witness :
  exists ds fn,
    test_after !! child test_this "DeliveryStream" = Some (RDeliveryStream ds) /\
    test_after !! defaultChild (child test_this "CloudWatchTransformer")
      = Some (RFunction fn) /\
    Handler fn = "cloudwatch-log-group-processor.handler" /\
    Code fn = "lambda/cloudwatch-log-group-processor" /\
    let pc := processingConfiguration (splunkDestinationConfiguration ds) in
    processingEnabled pc = true /\
    processors pc =
      [{| type := "Lambda";
          parameters :=
            [{| parameterName := "LambdaArn";
                parameterValue :=
                  VGetAtt (defaultChild (child test_this "CloudWatchTransformer"))
                          "Arn" |};
             {| parameterName := "RoleArn";
                parameterValue :=
                  VGetAtt (defaultChild (child test_this "DeliveryStreamRole"))
                          "Arn" |}] |}].
Proof.
  apply (delivery_stream_processing test_stack "CloudWatchToSplunk"
           (test_props test_logGroup) test_before).
  vm_compute. reflexivity.
Defined.

(** X13: where the delivery stream is told to put what it cannot
    deliver.  Its S3 destination is the construct's backup bucket, and
    its CloudWatch error logging is enabled, to the log stream named
    [errors] of the construct's own [KinesisDeliveryStreamLogs] log
    group; bucket, log group and log stream are all resources of the
    construct.  (What is written there for a batch is the doing of the
    Firehose service, not of the construct.) *)
Theorem delivery_stream_failure_destinations scope id props t0 this t' :
  CloudWatchToSplunk_new scope id props t0 = Return (this, t') ->
  exists ds bucket group logs,
    t' !! child this "DeliveryStream" = Some (RDeliveryStream ds) /\
    t' !! defaultChild (child this "BackupBucket") = Some (RBucket bucket) /\
    t' !! defaultChild (child this "KinesisDeliveryStreamLogs")
      = Some (RLogGroup group) /\
    t' !! defaultChild (child this "KinesisErrorLogStream")
      = Some (RLogStream logs) /\
    let dest := splunkDestinationConfiguration ds in
    bucketArn (s3Configuration dest)
      = VGetAtt (defaultChild (child this "BackupBucket")) "Arn" /\
    enabled (cloudWatchLoggingOptions dest) = true /\
    logGroupName (cloudWatchLoggingOptions dest)
      = VRef (defaultChild (child this "KinesisDeliveryStreamLogs")) /\
    logStreamName (cloudWatchLoggingOptions dest)
      = VRef (defaultChild (child this "KinesisErrorLogStream")) /\
    LogStream_LogStreamName logs = Some "errors" /\
    LogStream_LogGroupName logs
      = VRef (defaultChild (child this "KinesisDeliveryStreamLogs")).
Proof.
  intros H.
  apply CloudWatchToSplunk_new_Return
    in H as (_ & _ & _ & Hb & Hg & Hl & _ & _ & Hds).
  eexists _, _, _, _.
  split; [exact Hds |]. split; [exact Hb |]. split; [exact Hg |].
  split; [exact Hl |]. done.
Qed.

Lemma delivery_stream_failure_destinations_witness :
  exists ds bucket group logs,
    test_after !! child test_this "DeliveryStream" = Some (RDeliveryStream ds) /\
    test_after !! defaultChild (child test_this "BackupBucket")
      = Some (RBucket bucket) /\
    test_after !! defaultChild (child test_this "KinesisDeliveryStreamLogs")
      = Some (RLogGroup group) /\
    test_after !! defaultChild (child test_this "KinesisErrorLogStream")
      = Some (RLogStream logs) /\
    let dest := splunkDestinationConfiguration ds in
    bucketArn (s3Configuration dest)
      = VGetAtt (defaultChild (child test_this "BackupBucket")) "Arn" /\
    enabled (cloudWatchLoggingOptions dest) = true /\
    logGroupName (cloudWatchLoggingOptions dest)
      = VRef (defaultChild (child test_this "KinesisDeliveryStreamLogs")) /\
    logStreamName (cloudWatchLoggingOptions dest)
      = VRef (defaultChild (child test_this "KinesisErrorLogStream")) /\
    LogStream_LogStreamName logs = Some "errors" /\
    LogStream_LogGroupName logs
      = VRef (defaultChild (child test_this "KinesisDeliveryStreamLogs")).
Proof.
  apply (delivery_stream_failure_destinations test_stack "CloudWatchToSplunk"
           (test_props test_logGroup) test_before).
  vm_compute. reflexivity.
Defined.

(** ** Log groups listed twice

    [addSubscriptionFilter] names the filter [kinesis] under its log
    group, so a second filter for the same log group is refused by
    [addChild]: the constructor returns only when the log groups are
    pairwise distinct. *)

Lemma subscribe_node ingestStream logGroup t u t' :
  subscribe ingestStream logGroup t = Return (u, t') ->
  t !! child logGroup "kinesis" = None /\
  t' !! child logGroup "kinesis" = Some RConstruct.
Proof.
  unfold subscribe, addSubscriptionFilter, SubscriptionFilter.new. intros H.
  apply bind_Return in H as (a & t1 & H & Hret). injection Hret as _ <-.
  apply bind_Return in H as (this & t2 & H2 & H).
  apply addChild_Return in H2 as (-> & Hfresh & ->).
  split; [done |].
  assert (Hnode : <[child logGroup "kinesis" := RConstruct]> t
                    !! child logGroup "kinesis" = Some RConstruct)
    by apply tree_lookup_insert_eq.
  keep_from H Hnode. exact Hnode.
Qed.

Lemma forEach_fresh ingestStream logGroups t u t' :
  forEach logGroups (subscribe ingestStream) t = Return (u, t') ->
  forall logGroup, logGroup ∈ logGroups ->
  t !! child logGroup "kinesis" = None.
Proof.
  revert t. induction logGroups as [| x l IH]; intros t H lg Hlg.
  - by apply elem_of_nil in Hlg.
  - change (forEach (x :: l) (subscribe ingestStream))
      with (let* _ := subscribe ingestStream x in
            forEach l (subscribe ingestStream)) in H.
    apply bind_Return in H as (a & t1 & Hx & H).
    apply elem_of_cons in Hlg as [-> | Hlg].
    + by apply subscribe_node in Hx as [Hx _].
    + specialize (IH _ H lg Hlg).
      assert (Hs : spec (subscribe ingestStream x) (fun _ => True)
                        (fun _ _ => True))
        by (unfold subscribe; spec_go ltac:(done)).
      destruct (Hs _ _ _ Hx) as [_ Hq].
      destruct (Hq (child lg "kinesis")) as [<- | (r & Hr & _)]; [done |].
      congruence.
Qed.

Lemma forEach_NoDup ingestStream logGroups t u t' :
  forEach logGroups (subscribe ingestStream) t = Return (u, t') ->
  NoDup logGroups.
Proof.
  revert t. induction logGroups as [| x l IH]; intros t H.
  - constructor.
  - change (forEach (x :: l) (subscribe ingestStream))
      with (let* _ := subscribe ingestStream x in
            forEach l (subscribe ingestStream)) in H.
    apply bind_Return in H as (a & t1 & Hx & H).
    constructor; [| by eapply IH].
    intros Hin. apply subscribe_node in Hx as [_ Hx].
    pose proof (forEach_fresh _ _ _ _ _ H x Hin). congruence.
Qed.

Lemma CloudWatchToSplunk_new_NoDup scope id props t0 this t' :
  CloudWatchToSplunk_new scope id props t0 = Return (this, t') ->
  NoDup (logGroups props).
Proof.
  unfold CloudWatchToSplunk_new. intros H.
  apply bind_Return in H as (a & t1 & _ & H).
  apply bind_Return in H as (s & t2 & _ & H).
  apply bind_Return in H as (u & t3 & Hfe & _).
  by eapply forEach_NoDup.
Qed.

(** C3: for every log group in the [logGroups] of a
    [CloudWatchToSplunk] construct, the tree holds a subscription
    filter on that log group whose destination is the construct's
    ingest stream and whose pattern is empty (it matches every event),
    and it is the only filter from that log group to that stream in the
    tree; the log groups of a construct are pairwise distinct.  (Before
    the construct exists no filter can name its stream.) *)
Theorem subscription_filter_per_log_group scope id props t0 this t' :
  CloudWatchToSplunk_new scope id props t0 = Return (this, t') ->
  no_filter_to (VGetAtt (defaultChild (child (child scope id) "IngestStream")) "Arn") t0 ->
  NoDup (logGroups props) /\
  forall logGroup, logGroup ∈ logGroups props ->
  exists f,
    t' !! defaultChild (child logGroup "kinesis") = Some (RSubscriptionFilter f) /\
    LogGroupName f = VRef (defaultChild logGroup) /\
    DestinationArn f = VGetAtt (defaultChild (child this "IngestStream")) "Arn" /\
    FilterPattern f = "" /\
    forall q f',
      t' !! q = Some (RSubscriptionFilter f') ->
      LogGroupName f' = LogGroupName f ->
      DestinationArn f' = DestinationArn f ->
      q = defaultChild (child logGroup "kinesis").
Proof.
  intros H Hold. split; [by eapply CloudWatchToSplunk_new_NoDup |].
  intros lg Hlg.
  pose proof (CloudWatchToSplunk_new_Return _ _ _ _ _ _ H)
    as (Hthis & _ & Hfilters & _).
  eexists. split; [exact (Hfilters lg Hlg) |].
  do 3 (split; [done |]). cbn. intros q f' Hq Hgroup Hdest.
  destruct (spec_new _ _ _ _ _ _ _ _ H Hq
              (CloudWatchToSplunk_new_filters scope id props))
    as [Hq0 | Hnew].
  - apply tree_lookup_nodes in Hq0.
    unfold no_filter_to in Hold. rewrite Forall_forall in Hold.
    specialize (Hold _ Hq0). cbn in Hold. subst this. contradiction.
  - destruct (Hnew f' eq_refl) as (lg' & Hlg' & ->).
    rewrite (Hfilters lg' Hlg') in Hq. injection Hq as <-.
    cbn in Hgroup. injection Hgroup as Hgroup.
    apply child_inj in Hgroup as [-> _]. done.
Qed.

Lemma subscription_filter_per_log_group_witness :
  NoDup (logGroups (test_props test_logGroup)) /\
  exists f,
    test_after !! defaultChild (child test_logGroup "kinesis")
      = Some (RSubscriptionFilter f) /\
    LogGroupName f = VRef (defaultChild test_logGroup) /\
    DestinationArn f = VGetAtt (defaultChild (child test_this "IngestStream")) "Arn" /\
    FilterPattern f = "" /\
    forall q f',
      test_after !! q = Some (RSubscriptionFilter f') ->
      LogGroupName f' = LogGroupName f ->
      DestinationArn f' = DestinationArn f ->
      q = defaultChild (child test_logGroup "kinesis").
Proof.
  assert (Hrun : CloudWatchToSplunk_new test_stack "CloudWatchToSplunk"
                   (test_props test_logGroup) test_before
                 = Return (test_this, test_after))
    by (vm_compute; reflexivity).
  assert (Hold : no_filter_to
                   (VGetAtt (defaultChild
                      (child (child test_stack "CloudWatchToSplunk") "IngestStream"))
                      "Arn") test_before)
    by (vm_compute; repeat constructor).
  destruct (subscription_filter_per_log_group _ _ _ _ _ _ Hrun Hold)
    as [Hnd Hall].
  split; [exact Hnd |]. apply Hall. vm_compute. left.
Defined.

(** ** The endpoint and its token *)

(** C4, as stated, fails: the constructor does not look at the scheme of
    [hecEndpoint].  Given [http://my-endpoint:8088] it returns, and the
    delivery stream is synthesized with that endpoint. *)
Lemma http_endpoint_accepted :
  exists ds,
    CloudWatchToSplunk_new test_stack "CloudWatchToSplunk" http_props test_before
      = Return (test_this, http_after) /\
    http_after !! child test_this "DeliveryStream" = Some (RDeliveryStream ds) /\
    hecEndpoint (splunkDestinationConfiguration ds) = "http://my-endpoint:8088" /\
    is_https (hecEndpoint (splunkDestinationConfiguration ds)) = false.
Proof. eexists. vm_compute. repeat split. Qed.

(** C4, amended: the delivery stream of every [CloudWatchToSplunk]
    construct has the construct's [hecEndpoint] prop, unchanged, as its
    endpoint, [Raw] as its endpoint type and the construct's token as its
    token; its endpoint is an [https] URL exactly when the prop is.  The
    constructor checks nothing about the endpoint: it would have
    returned for any other endpoint as well. *)
Theorem delivery_stream_endpoint scope id props t0 this t' :
  CloudWatchToSplunk_new scope id props t0 = Return (this, t') ->
  (exists ds,
     t' !! child this "DeliveryStream" = Some (RDeliveryStream ds) /\
     let dest := splunkDestinationConfiguration ds in
     hecEndpoint dest = props_hecEndpoint props /\
     hecEndpointType dest = "Raw" /\
     hecToken dest = SecretValue.toString (props_hecToken props) /\
     is_https (hecEndpoint dest) = is_https (props_hecEndpoint props)) /\
  (forall endpoint, exists t'',
     CloudWatchToSplunk_new scope id
       {| logGroups := logGroups props;
          props_hecEndpoint := endpoint;
          props_hecToken := props_hecToken props |} t0
     = Return (this, t'')).
Proof.
  intros H. split.
  - apply CloudWatchToSplunk_new_Return
      in H as (_ & _ & _ & _ & _ & _ & _ & _ & Hds).
    eexists. split; [exact Hds | done].
  - intros endpoint. by eapply CloudWatchToSplunk_new_any_endpoint.
Qed.

Lemma delivery_stream_endpoint_witness :
  (exists ds,
     test_after !! child test_this "DeliveryStream" = Some (RDeliveryStream ds) /\
     let dest := splunkDestinationConfiguration ds in
     hecEndpoint dest = "https://my-endpoint:8088" /\
     hecEndpointType dest = "Raw" /\
     hecToken dest = SecretValue.toString (SecretValue.plainText "value") /\
     is_https (hecEndpoint dest) = is_https "https://my-endpoint:8088") /\
  (forall endpoint, exists t'',
     CloudWatchToSplunk_new test_stack "CloudWatchToSplunk"
       {| logGroups := [test_logGroup];
          props_hecEndpoint := endpoint;
          props_hecToken := SecretValue.plainText "value" |} test_before
     = Return (test_this, t'')).
Proof.
  apply (delivery_stream_endpoint test_stack "CloudWatchToSplunk"
           (test_props test_logGroup) test_before).
  vm_compute. reflexivity.
Defined.

(** C10, as stated, fails: with a token kept in Secrets Manager the
    [HECToken] of the template is a [{{resolve:secretsmanager:...}}]
    reference to the secret, not a literal. *)
Lemma secretsmanager_token_not_plaintext :
  exists ds,
    CloudWatchToSplunk_new test_stack "CloudWatchToSplunk" stack_props test_before
      = Return (test_this, stack_after) /\
    stack_after !! child test_this "DeliveryStream" = Some (RDeliveryStream ds) /\
    is_plaintext (hecToken (splunkDestinationConfiguration ds)) = false /\
    is_dynamic_reference (hecToken (splunkDestinationConfiguration ds)) = true.
Proof. eexists. vm_compute. repeat split. Qed.

(** C10, amended: the [HECToken] of the delivery stream is whatever the
    given [SecretValue] stands for.  For [SecretValue.plainText(s)] it is
    the literal [s]; for [SecretValue.secretsManager(...)] it is a
    dynamic reference to the secret. *)
Theorem delivery_stream_token scope id props t0 this t' :
  CloudWatchToSplunk_new scope id props t0 = Return (this, t') ->
  exists ds,
    t' !! child this "DeliveryStream" = Some (RDeliveryStream ds) /\
    let token := hecToken (splunkDestinationConfiguration ds) in
    token = SecretValue.rawValue (props_hecToken props) /\
    (forall s, props_hecToken props = SecretValue.plainText s ->
               token = VStr s) /\
    (forall secretId jsonField versionStage versionId,
       props_hecToken props
         = SecretValue.secretsManager secretId jsonField versionStage versionId ->
       is_dynamic_reference token = true /\ is_plaintext token = false).
Proof.
  intros H.
  apply CloudWatchToSplunk_new_Return
    in H as (_ & _ & _ & _ & _ & _ & _ & _ & Hds).
  eexists. split; [exact Hds |]. cbn. split; [done |].
  split; [by intros s -> | by intros ? ? ? ? ->].
Qed.

Lemma delivery_stream_token_witness :
  exists ds,
    test_after !! child test_this "DeliveryStream" = Some (RDeliveryStream ds) /\
    let token := hecToken (splunkDestinationConfiguration ds) in
    token = SecretValue.rawValue (SecretValue.plainText "value") /\
    (forall s, SecretValue.plainText "value" = SecretValue.plainText s ->
               token = VStr s) /\
    (forall secretId jsonField versionStage versionId,
       SecretValue.plainText "value"
         = SecretValue.secretsManager secretId jsonField versionStage versionId ->
       is_dynamic_reference token = true /\ is_plaintext token = false).
Proof.
  apply (delivery_stream_token test_stack "CloudWatchToSplunk"
           (test_props test_logGroup) test_before).
  vm_compute. reflexivity.
Defined.

(** ** The backup bucket *)

(** C5, as stated, fails: the backup bucket of the test's construct is
    declared with [DESTROY] and [autoDeleteObjects], so a batch stored in
    it is deleted with the bucket. *)
Lemma backup_batches_deleted_on_removal :
  exists bucket,
    CloudWatchToSplunk_new test_stack "CloudWatchToSplunk"
      (test_props test_logGroup) test_before = Return (test_this, test_after) /\
    test_after !! defaultChild (child test_this "BackupBucket")
      = Some (RBucket bucket) /\
    objects_after_removal bucket ["batch"] = [] /\
    objects_after_removal bucket ["batch"] <> ["batch"].
Proof. eexists. vm_compute. repeat split. discriminate. Qed.

(** In the test's stack, the role of the delivery stream is moreover
    allowed to delete objects of the backup bucket: [grantWrite] gives it
    [s3:DeleteObject*], as the test expects. *)
Example test_delivery_role_may_delete :
  exists policy statement,
    test_after !! defaultChild (child (child test_this "DeliveryStreamRole")
                                      "DefaultPolicy")
      = Some (RPolicy policy) /\
    In statement (PolicyStatements policy) /\
    In "s3:DeleteObject*" (actions statement) /\
    In (Bucket.bucketArn (child test_this "BackupBucket")) (resources statement).
Proof.
  eexists _, _. split; [vm_compute; reflexivity |].
  split; [left; reflexivity |]. split; left; reflexivity.
Qed.

(** C5, amended: the backup bucket of every [CloudWatchToSplunk]
    construct is the S3 destination of its delivery stream and is
    declared with removal policy [DESTROY] and [autoDeleteObjects]:
    whatever was stored in it is deleted when the bucket is removed. *)
Theorem backup_bucket_removal scope id props t0 this t' :
  CloudWatchToSplunk_new scope id props t0 = Return (this, t') ->
  exists ds bucket,
    t' !! child this "DeliveryStream" = Some (RDeliveryStream ds) /\
    t' !! defaultChild (child this "BackupBucket") = Some (RBucket bucket) /\
    bucketArn (s3Configuration (splunkDestinationConfiguration ds))
      = VGetAtt (defaultChild (child this "BackupBucket")) "Arn" /\
    Bucket_DeletionPolicy bucket = DESTROY /\
    Bucket_AutoDeleteObjects bucket = true /\
    forall (A : Type) (objects : list A),
      objects_after_removal bucket objects = [].
Proof.
  intros H.
  apply CloudWatchToSplunk_new_Return
    in H as (_ & _ & _ & Hb & _ & _ & _ & _ & Hds).
  eexists _, _. split; [exact Hds |]. split; [exact Hb |]. done.
Qed.

Lemma backup_bucket_removal_witness :
  exists ds bucket,
    test_after !! child test_this "DeliveryStream" = Some (RDeliveryStream ds) /\
    test_after !! defaultChild (child test_this "BackupBucket")
      = Some (RBucket bucket) /\
    bucketArn (s3Configuration (splunkDestinationConfiguration ds))
      = VGetAtt (defaultChild (child test_this "BackupBucket")) "Arn" /\
    Bucket_DeletionPolicy bucket = DESTROY /\
    Bucket_AutoDeleteObjects bucket = true /\
    forall (A : Type) (objects : list A),
      objects_after_removal bucket objects = [].
Proof.
  apply (backup_bucket_removal test_stack "CloudWatchToSplunk"
           (test_props test_logGroup) test_before).
  vm_compute. reflexivity.
Defined.

(** * functions/get-public-ip.ts: what [checkIfValidIP] accepts *)

Example checkIfValidIP_test :
  checkIfValidIP "192.168.0.1" = Return "192.168.0.1" /\
  checkIfValidIP "255.255.255.255" = Return "255.255.255.255" /\
  checkIfValidIP "256.1.1.1" = Throw (Error_new "256.1.1.1 does not look valid.") /\
  checkIfValidIP "01.2.3.4" = Throw (Error_new "01.2.3.4 does not look valid.") /\
  checkIfValidIP "1.2.3" = Throw (Error_new "1.2.3 does not look valid.") /\
  checkIfValidIP "1.2.3.4 " = Throw (Error_new "1.2.3.4  does not look valid.") /\
  dotted_quad 192 168 0 1 = "192.168.0.1".
Proof. vm_compute. repeat split. Qed.

(** ** What the matcher accepts *)


Lemma all_ascii_complete x : In x all_ascii.
Proof.
  unfold all_ascii. rewrite <- (ascii_nat_embedding x).
  apply in_map, in_seq. pose proof (nat_ascii_bounded x). lia.
Qed.

Lemma In_filter_ascii (f : ascii -> bool) x :
  f x = true -> In x (List.filter f all_ascii).
Proof. intros H. apply filter_In. split; [apply all_ascii_complete | done]. Qed.

Arguments all_ascii : simpl never.

Lemma in_Char c st st' :
  In st' (rmatch (Char c) st) ->
  exists x, snd st = String x (snd st') /\ fst st' = S (fst st) /\
            char_matches c x = true.
Proof.
  destruct st as [i [| x s]]; simpl; [done |].
  destruct (char_matches c x) eqn:E; simpl; [| done].
  intros [<- | []]. by exists x.
Qed.

Lemma in_Class lo hi st st' :
  In st' (rmatch (Class lo hi) st) ->
  exists x, snd st = String x (snd st') /\ fst st' = S (fst st) /\
            class_matches lo hi x = true.
Proof.
  destruct st as [i [| x s]]; simpl; [done |].
  destruct (class_matches lo hi x) eqn:E; simpl; [| done].
  intros [<- | []]. by exists x.
Qed.

Lemma in_Seq r1 r2 st st' :
  In st' (rmatch (Seq r1 r2) st) <->
  exists m, In m (rmatch r1 st) /\ In st' (rmatch r2 m).
Proof. simpl. apply in_flat_map. Qed.

Lemma in_Alt r1 r2 st st' :
  In st' (rmatch (Alt r1 r2) st) <->
  In st' (rmatch r1 st) \/ In st' (rmatch r2 st).
Proof. simpl. apply in_app_iff. Qed.

Lemma in_Repeat_0 r st st' : In st' (rmatch (Repeat 0 r) st) <-> st' = st.
Proof. simpl. intuition. Qed.

Lemma in_Repeat_S n r st st' :
  In st' (rmatch (Repeat (S n) r) st) <->
  exists m, In m (rmatch (Repeat n r) st) /\ In st' (rmatch r m).
Proof. simpl. apply in_flat_map. Qed.

Lemma in_Eol st st' : In st' (rmatch Eol st) <-> st' = st /\ snd st = "".
Proof.
  destruct st as [i [| x s]]; simpl.
  - split; [by intros [<- | []] | intros [-> _]; by left].
  - split; [done | intros [_ H]; discriminate H].
Qed.

Lemma in_Bol st st' : In st' (rmatch Bol st) <-> st' = st /\ fst st = 0.
Proof.
  destruct st as [[| i] s]; simpl.
  - split; [by intros [<- | []] | intros [-> _]; by left].
  - split; [done | intros [_ H]; discriminate H].
Qed.

Lemma append_nil_r (s : string) : s +:+ "" = s.
Proof.
  induction s as [| c s IH]; [done |].
  change (String c s +:+ "") with (String c (s +:+ "")). by rewrite IH.
Qed.

Lemma N_le_255 (n : N) : (n <= 255)%N -> In n (map N.of_nat (seq 0 256)).
Proof.
  intros H. rewrite <- (N2Nat.id n). apply in_map, in_seq. lia.
Qed.

Ltac in_cases H :=
  vm_compute in H;
  repeat match type of H with
         | _ \/ _ => destruct H as [H | H]
         | False => destruct H
         end;
  try subst.

Ltac in_solve :=
  vm_compute; repeat first [ left; reflexivity | right ].

Ltac octet_number :=
  lazymatch goal with
  | |- exists n, _ /\ String ?a (String ?b (String ?c ?rest)) = _ /\ _ =>
      exists (100 * digit a + 10 * digit b + digit c)%N
  | |- exists n, _ /\ String ?a (String ?b ?rest) = _ /\ _ =>
      exists (10 * digit a + digit b)%N
  | |- exists n, _ /\ String ?a ?rest = _ /\ _ =>
      exists (digit a)
  end;
  vm_compute; (split; [discriminate | split; reflexivity]).

Ltac in_inv :=
  repeat match goal with
         | H : In _ (rmatch (Seq _ _) _) |- _ =>
             apply in_Seq in H as ([? ?] & ? & ?)
         | H : In _ (rmatch (Repeat (S _) _) _) |- _ =>
             apply in_Repeat_S in H as ([? ?] & ? & ?)
         | H : In _ (rmatch (Repeat 0 _) _) |- _ =>
             apply in_Repeat_0 in H; injection H as ? ?
         | H : In _ (rmatch (Class _ _) _) |- _ =>
             apply in_Class in H as (? & ? & ? & ?)
         | H : In _ (rmatch (Char _) _) |- _ =>
             apply in_Char in H as (? & ? & ? & ?)
         end; cbn [fst snd] in *; subst.

(** [octet] consumes exactly the decimal numeral of a number up to 255. *)
Lemma octet_sound i s j rest :
  In (j, rest) (rmatch octet (i, s)) ->
  exists n, (n <= 255)%N /\ s = decimal n +:+ rest /\ j = String.length (decimal n) + i.
Proof.
  unfold octet. intros H.
  repeat (apply in_Alt in H as [H | H]); in_inv.
  all: repeat match goal with
           | H : class_matches _ _ _ = true |- _ =>
               apply In_filter_ascii in H; in_cases H
           | H : char_matches _ _ = true |- _ =>
               apply In_filter_ascii in H; in_cases H
           end.
  all: octet_number.
Qed.

Lemma N_range (n lo : N) (len : nat) :
  (lo <= n < lo + N.of_nat len)%N ->
  In n (map N.of_nat (seq (N.to_nat lo) len)).
Proof.
  intros H. rewrite <- (N2Nat.id n). apply in_map, in_seq. lia.
Qed.

Lemma octet_complete i n rest :
  (n <= 255)%N ->
  In (String.length (decimal n) + i, rest) (rmatch octet (i, decimal n +:+ rest)).
Proof.
  intros H. unfold octet.
  assert (n < 10 \/ 10 <= n < 100 \/ 100 <= n < 200 \/
          200 <= n < 250 \/ 250 <= n < 256)%N
    as [Hn | [Hn | [Hn | [Hn | Hn]]]] by lia.
  - apply in_Alt. left.
    pose proof (N_range n 0 10 ltac:(lia)) as Hr. in_cases Hr; in_solve.
  - apply in_Alt. right. apply in_Alt. left.
    pose proof (N_range n 10 90 ltac:(lia)) as Hr. in_cases Hr; in_solve.
  - do 2 (apply in_Alt; right). apply in_Alt. left.
    pose proof (N_range n 100 100 ltac:(lia)) as Hr. in_cases Hr; in_solve.
  - do 3 (apply in_Alt; right). apply in_Alt. left.
    pose proof (N_range n 200 50 ltac:(lia)) as Hr. in_cases Hr; in_solve.
  - do 4 (apply in_Alt; right).
    pose proof (N_range n 250 6 ltac:(lia)) as Hr. in_cases Hr; in_solve.
Qed.

Lemma dot_sound i s j rest :
  In (j, rest) (rmatch (Char ".") (i, s)) -> s = String "." rest /\ j = S i.
Proof.
  intros H. apply in_Char in H as (x & Hs & Hj & Hx). simpl in *. subst.
  apply In_filter_ascii in Hx. in_cases Hx. done.
Qed.

(** A match of [regexExp] from the start of [s] ends in the state
    [(String.length s, "")], and there is one exactly when [s] is a
    dotted quad. *)
Lemma regexExp_sound s st :
  In st (rmatch regexExp (0, s)) -> is_IPv4 s.
Proof.
  unfold regexExp. intros H.
  apply in_Seq in H as ([i0 s0] & H0 & H).
  apply in_Bol in H0 as [[= -> ->] _].
  apply in_Seq in H as ([i3 s3] & H3 & H).
  apply in_Seq in H as ([i4 s4] & H4 & H).
  apply in_Eol in H as [-> E]. simpl in E. subst s4.
  apply in_Repeat_S in H3 as ([i2 s2] & H2 & H3).
  apply in_Repeat_S in H2 as ([i1 s1] & H1 & H2).
  apply in_Repeat_S in H1 as ([i0 s0] & H0 & H1).
  apply in_Repeat_0 in H0 as [= -> ->].
  apply in_Seq in H1 as ([j1 r1] & Ha & Hd1).
  apply in_Seq in H2 as ([j2 r2] & Hb & Hd2).
  apply in_Seq in H3 as ([j3 r3] & Hc & Hd3).
  apply octet_sound in Ha as (a & Ha & -> & _).
  apply dot_sound in Hd1 as (-> & _).
  apply octet_sound in Hb as (b & Hb & -> & _).
  apply dot_sound in Hd2 as (-> & _).
  apply octet_sound in Hc as (c & Hc & -> & _).
  apply dot_sound in Hd3 as (-> & _).
  apply octet_sound in H4 as (d & Hd & -> & _).
  exists a, b, c, d. split; [done |].
  unfold dotted_quad. by rewrite append_nil_r.
Qed.

Lemma dot_complete i rest :
  In (S i, rest) (rmatch (Char ".") (i, "." +:+ rest)).
Proof. vm_compute. by left. Qed.

Lemma regexExp_complete s : is_IPv4 s -> matches_at regexExp 0 s = true.
Proof.
  intros (a & b & c & d & (Ha & Hb & Hc & Hd) & ->).
  assert (Hin : exists st, In st (rmatch regexExp (0, dotted_quad a b c d))).
  { eexists. unfold regexExp, dotted_quad.
    apply in_Seq. eexists. split; [apply in_Bol; split; reflexivity |].
    apply in_Seq. eexists. split.
    - apply in_Repeat_S. eexists. split.
      + apply in_Repeat_S. eexists. split.
        * apply in_Repeat_S. eexists. split; [apply in_Repeat_0; reflexivity |].
          apply in_Seq. eexists. split; [by apply octet_complete |].
          apply dot_complete.
        * apply in_Seq. eexists. split; [by apply octet_complete |].
          apply dot_complete.
      + apply in_Seq. eexists. split; [by apply octet_complete |].
        apply dot_complete.
    - apply in_Seq. eexists. split.
      + rewrite <- (append_nil_r (decimal d)). by apply octet_complete.
      + apply in_Eol. split; reflexivity. }
  destruct Hin as [st Hst]. unfold matches_at.
  by destruct (rmatch regexExp (0, dotted_quad a b c d)).
Qed.

(** [^] holds at index 0 only: the search never succeeds from a later
    start. *)
Lemma search_regexExp_later i s : search regexExp (S i) s = false.
Proof. revert i. induction s as [| c s IH]; intros i; simpl; [done | apply IH]. Qed.

Lemma RegExp_test_regexExp s : RegExp_test regexExp s = true <-> is_IPv4 s.
Proof.
  assert (E : RegExp_test regexExp s = matches_at regexExp 0 s).
  { unfold RegExp_test. destruct s as [| c s]; cbn [search].
    - by rewrite orb_false_r.
    - rewrite search_regexExp_later. by rewrite orb_false_r. }
  rewrite E. split; [| apply regexExp_complete].
  unfold matches_at. destruct (rmatch regexExp (0, s)) as [| st l] eqn:Hm;
    [done |].
  intros _. apply (regexExp_sound s st). rewrite Hm. by left.
Qed.

(** C9: [checkIfValidIP] returns its argument, unchanged, exactly when
    the argument is a dotted quad (four decimal numbers from 0 to 255
    separated by dots, the whole string); on every other argument it
    throws [Error("<ip> does not look valid.")].  [getPublicIp] either
    returns a dotted quad or throws. *)
Theorem checkIfValidIP_spec :
  (forall ip, checkIfValidIP ip = Return ip <-> is_IPv4 ip) /\
  (forall ip r, checkIfValidIP ip = Return r -> r = ip) /\
  (forall ip, ~ is_IPv4 ip ->
     checkIfValidIP ip = Throw (Error_new (ip +:+ " does not look valid."))) /\
  (forall network,
     (exists ip, getPublicIp network = Return ip /\ is_IPv4 ip) \/
     (exists e, getPublicIp network = Throw e)).
Proof.
  assert (Hc : forall ip r, checkIfValidIP ip = Return r -> r = ip /\ is_IPv4 ip).
  { intros ip r. unfold checkIfValidIP.
    destruct (RegExp_test regexExp ip) eqn:E; [| discriminate].
    intros [= <-]. split; [done | by apply RegExp_test_regexExp]. }
  split; [| split; [| split]].
  - intros ip. split; [intros H; by apply Hc in H as [_ ?] |].
    intros H. apply RegExp_test_regexExp in H.
    unfold checkIfValidIP. by rewrite H.
  - intros ip r H. by apply Hc in H as [? _].
  - intros ip Hn. unfold checkIfValidIP.
    destruct (RegExp_test regexExp ip) eqn:E; [| done].
    by apply RegExp_test_regexExp in E.
  - intros [e | [[data] | e]]; simpl.
    + right. eauto.
    + destruct (checkIfValidIP data) eqn:E; simpl.
      * left. apply Hc in E as [-> ?]. eauto.
      * right. eauto.
    + right. eauto.
Qed.

Lemma checkIfValidIP_spec_witness :
  checkIfValidIP "192.168.0.1" = Return "192.168.0.1".
Proof.
  apply (proj1 checkIfValidIP_spec "192.168.0.1").
  exists 192%N, 168%N, 0%N, 1%N. split; [lia | reflexivity].
Defined.

(** * Further properties of the constructor *)

(** No computation of the monad that meets a [spec] removes a node. *)
Lemma spec_keeps {A} (m : cdk A) R P t a t' q :
  m t = Return (a, t') -> spec m R P ->
  is_Some (t !! q) -> is_Some (t' !! q).
Proof.
  intros Hrun Hs Hq. destruct (Hs t a t' Hrun) as [_ H].
  destruct (H q) as [-> | (r & -> & _)]; eauto.
Qed.

Ltac own_side :=
  intros ? ? ?; lazy beta in *;
  repeat match goal with
         | H : _ /\ _ |- _ => destruct H
         | H : exists _, _ |- _ => destruct H
         end;
  subst;
  first [ left; solve [in_paths]
        | right; eexists; split; [eassumption | solve [in_paths]] ].

Lemma CloudWatchToSplunk_new_modifies scope id props :
  spec (CloudWatchToSplunk_new scope id props)
       (fun p => p = child scope id)
       (fun q _ => q ∈ construct_paths (child scope id) \/
                   exists lg, lg ∈ logGroups props /\ q ∈ filter_paths lg).
Proof. spec_go own_side. Qed.

(** X1: the constructor leaves the rest of the tree alone.  When it
    returns, every node that existed before, other than the construct's
    own nodes and the [kinesis] nodes of the listed log groups, is still
    there with the content it had: nothing of the stack is removed or
    rewritten. *)
Theorem CloudWatchToSplunk_new_preserves scope id props t0 this t' :
  CloudWatchToSplunk_new scope id props t0 = Return (this, t') ->
  forall q r,
    t0 !! q = Some r ->
    q ∉ construct_paths this ->
    (forall lg, lg ∈ logGroups props -> q ∉ filter_paths lg) ->
    t' !! q = Some r.
Proof.
  intros H q r Hq0 Hown Hfilters.
  destruct (CloudWatchToSplunk_new_modifies scope id props _ _ _ H)
    as [-> Hq].
  destruct (Hq q) as [-> | (r' & _ & [Hin | (lg & Hlg & Hin)])];
    [done | by destruct Hown | by destruct (Hfilters lg Hlg)].
Qed.


Lemma CloudWatchToSplunk_new_node scope id props t0 this t' :
  CloudWatchToSplunk_new scope id props t0 = Return (this, t') ->
  is_Some (t' !! child scope id).
Proof.
  unfold CloudWatchToSplunk_new. intros H.
  apply bind_Return in H as (a & t1 & H1 & H).
  apply addChild_Return in H1 as (-> & _ & ->).
  eapply (spec_keeps _ _ (fun _ _ => True)); [exact H | spec_go ltac:(done) |].
  rewrite tree_lookup_insert_eq. eauto.
Qed.

Lemma addChild_taken scope id r t :
  is_Some (t !! child scope id) -> exists e, addChild scope id r t = Throw e.
Proof. intros [r' Hr]. unfold addChild. rewrite Hr. eauto. Qed.

Lemma bind_Throw {A B} (m : cdk A) (k : A -> cdk B) t e :
  m t = Throw e -> bind m k t = Throw e.
Proof. unfold bind. by intros ->. Qed.

(** X4: a construct id is used once per scope.  After
    [new CloudWatchToSplunk(scope, id, props)] returned, constructing
    again with the same scope and id throws, whatever the props. *)
Theorem CloudWatchToSplunk_new_twice scope id props t0 this t' props' :
  CloudWatchToSplunk_new scope id props t0 = Return (this, t') ->
  exists e, CloudWatchToSplunk_new scope id props' t' = Throw e.
Proof.
  intros H. apply CloudWatchToSplunk_new_node in H.
  destruct (addChild_taken scope id RConstruct t' H) as [e He].
  exists e. unfold CloudWatchToSplunk_new. by apply bind_Throw.
Qed.

Lemma subscribe_keeps ingestStream logGroup :
  spec (subscribe ingestStream logGroup) (fun _ => True) (fun _ _ => True).
Proof. unfold subscribe. spec_go ltac:(done). Qed.

Lemma forEach_nodes ingestStream logGroups t u t' :
  forEach logGroups (subscribe ingestStream) t = Return (u, t') ->
  forall logGroup, logGroup ∈ logGroups ->
  is_Some (t' !! child logGroup "kinesis").
Proof.
  revert t. induction logGroups as [| x l IH]; intros t H lg Hlg.
  - by apply elem_of_nil in Hlg.
  - change (forEach (x :: l) (subscribe ingestStream))
      with (let* _ := subscribe ingestStream x in
            forEach l (subscribe ingestStream)) in H.
    apply bind_Return in H as (a & t1 & Hx & H).
    apply elem_of_cons in Hlg as [-> | Hlg]; [| by eapply IH].
    apply subscribe_node in Hx as [_ Hx].
    eapply (spec_keeps _ _ (fun _ _ => True)); [exact H | | by rewrite Hx].
    apply spec_forEach. intros y _. apply subscribe_keeps.
Qed.

Lemma CloudWatchToSplunk_new_filter_node scope id props t0 this t' logGroup :
  CloudWatchToSplunk_new scope id props t0 = Return (this, t') ->
  logGroup ∈ logGroups props ->
  is_Some (t' !! child logGroup "kinesis").
Proof.
  unfold CloudWatchToSplunk_new. intros H Hlg.
  apply bind_Return in H as (a & t1 & _ & H).
  apply bind_Return in H as (s & t2 & _ & H).
  apply bind_Return in H as (u & t3 & Hfe & H).
  eapply (spec_keeps _ _ (fun _ _ => True)); [exact H | spec_go ltac:(done) |].
  by eapply forEach_nodes.
Qed.

Lemma CloudWatchToSplunk_new_kinesis_free scope id props t0 this t' logGroup :
  CloudWatchToSplunk_new scope id props t0 = Return (this, t') ->
  logGroup ∈ logGroups props ->
  t0 !! child logGroup "kinesis" = None.
Proof.
  unfold CloudWatchToSplunk_new. intros H Hlg.
  apply bind_Return in H as (a & t1 & H1 & H).
  apply bind_Return in H as (s & t2 & H2 & H).
  apply bind_Return in H as (u & t3 & Hfe & _).
  pose proof (forEach_fresh _ _ _ _ _ Hfe _ Hlg) as Hfree.
  destruct (t0 !! child logGroup "kinesis") as [r |] eqn:E; [| done].
  assert (Hsome : is_Some (t2 !! child logGroup "kinesis")).
  { eapply (spec_keeps _ _ (fun _ _ => True)); [exact H2 | | ].
    - unfold Stream.new. cbn. spec_go ltac:(done).
    - eapply (spec_keeps _ _ (fun _ _ => True));
        [exact H1 | spec_go ltac:(done) | by rewrite E]. }
  rewrite Hfree in Hsome. by destruct Hsome.
Qed.

(** X3: a log group feeds one construct.  After a construct subscribed
    a log group, a second construct, at any scope and id, whose
    [logGroups] holds that log group throws: the id [kinesis] under the
    log group is taken. *)
Theorem CloudWatchToSplunk_new_shared_log_group
    scope id props t0 this t' scope' id' props' logGroup :
  CloudWatchToSplunk_new scope id props t0 = Return (this, t') ->
  logGroup ∈ logGroups props ->
  logGroup ∈ logGroups props' ->
  exists e, CloudWatchToSplunk_new scope' id' props' t' = Throw e.
Proof.
  intros H Hlg Hlg'.
  pose proof (CloudWatchToSplunk_new_filter_node _ _ _ _ _ _ _ H Hlg) as Hsome.
  destruct (CloudWatchToSplunk_new scope' id' props' t') as [[p t''] | e] eqn:E;
    [| eauto].
  rewrite (CloudWatchToSplunk_new_kinesis_free _ _ _ _ _ _ _ E Hlg') in Hsome.
  by destruct Hsome.
Qed.

(** X5: the constructor adds subscription filters for the listed log
    groups and no others.  Every subscription filter of the tree after
    it was there before, or is the filter [kinesis] of a listed log
    group, with the ingest stream as destination, the empty pattern and
    the role [CloudWatchLogsCanPutRecords]; with an empty [logGroups] no
    subscription filter is added. *)
Theorem CloudWatchToSplunk_new_only_listed_filters scope id props t0 this t' :
  CloudWatchToSplunk_new scope id props t0 = Return (this, t') ->
  (forall q f,
     t' !! q = Some (RSubscriptionFilter f) ->
     t0 !! q = Some (RSubscriptionFilter f) \/
     exists logGroup,
       logGroup ∈ logGroups props /\
       q = defaultChild (child logGroup "kinesis") /\
       f = {| DestinationArn := VGetAtt (defaultChild (child this "IngestStream")) "Arn";
              FilterPattern := "";
              LogGroupName := VRef (defaultChild logGroup);
              RoleArn := Some (VGetAtt
                (defaultChild (child (child logGroup "kinesis")
                                     "CloudWatchLogsCanPutRecords")) "Arn") |}) /\
  (logGroups props = [] ->
   forall q f,
     t' !! q = Some (RSubscriptionFilter f) ->
     t0 !! q = Some (RSubscriptionFilter f)).
Proof.
  intros H.
  assert (Hall : forall q f,
     t' !! q = Some (RSubscriptionFilter f) ->
     t0 !! q = Some (RSubscriptionFilter f) \/
     exists logGroup,
       logGroup ∈ logGroups props /\
       q = defaultChild (child logGroup "kinesis") /\
       f = {| DestinationArn := VGetAtt (defaultChild (child this "IngestStream")) "Arn";
              FilterPattern := "";
              LogGroupName := VRef (defaultChild logGroup);
              RoleArn := Some (VGetAtt
                (defaultChild (child (child logGroup "kinesis")
                                     "CloudWatchLogsCanPutRecords")) "Arn") |}).
  { intros q f Hq.
    destruct (spec_new _ _ _ _ _ _ _ _ H Hq
                (CloudWatchToSplunk_new_filters scope id props))
      as [Hq0 | Hnew]; [by left | right].
    destruct (Hnew f eq_refl) as (lg & Hlg & ->).
    exists lg. split; [done |]. split; [done |].
    apply CloudWatchToSplunk_new_Return in H as (_ & _ & Hfilters & _).
    rewrite (Hfilters lg Hlg) in Hq. by injection Hq as <-. }
  split; [exact Hall |].
  intros Hnil q f Hq. destruct (Hall q f Hq) as [Hq0 | (lg & Hlg & _)]; [done |].
  rewrite Hnil in Hlg. by apply elem_of_nil in Hlg.
Qed.

(** X6: the delivery stream reads from the construct's ingest stream.
    Its type is [KinesisStreamAsSource], its source is the ARN of
    [IngestStream], read under the role [DeliveryStreamRole]; that role
    is assumed by [firehose.amazonaws.com] and its inline policy [Ingest]
    allows [kinesis:DescribeStream], [kinesis:GetShardIterator] and
    [kinesis:GetRecords] on that stream alone; and the delivery stream
    depends on the role. *)
Theorem delivery_stream_source scope id props t0 this t' :
  CloudWatchToSplunk_new scope id props t0 = Return (this, t') ->
  exists ds stream role,
    t' !! child this "DeliveryStream" = Some (RDeliveryStream ds) /\
    t' !! defaultChild (child this "IngestStream") = Some (RStream stream) /\
    t' !! defaultChild (child this "DeliveryStreamRole") = Some (RRole role) /\
    deliveryStreamType ds = "KinesisStreamAsSource" /\
    kinesisStreamArn (kinesisStreamSourceConfiguration ds)
      = VGetAtt (defaultChild (child this "IngestStream")) "Arn" /\
    sourceRoleArn (kinesisStreamSourceConfiguration ds)
      = VGetAtt (defaultChild (child this "DeliveryStreamRole")) "Arn" /\
    AssumeRolePrincipal role = "firehose.amazonaws.com" /\
    Policies role =
      [("Ingest",
        [{| actions := ["kinesis:DescribeStream"; "kinesis:GetShardIterator";
                        "kinesis:GetRecords"];
            resources :=
              [kinesisStreamArn (kinesisStreamSourceConfiguration ds)] |}])] /\
    dependsOn ds = [defaultChild (child this "DeliveryStreamRole")].
Proof.
  intros H.
  apply CloudWatchToSplunk_new_Return
    in H as (_ & Hs & _ & _ & _ & _ & _ & Hr & Hds).
  eexists _, _, _. split; [exact Hds |]. split; [exact Hs |].
  split; [exact Hr |]. done.
Qed.

(** X8: the log group of delivery errors keeps its events for one day,
    and both it and its log stream are destroyed with the stack. *)
Theorem delivery_error_logs_retention scope id props t0 this t' :
  CloudWatchToSplunk_new scope id props t0 = Return (this, t') ->
  exists group logs,
    t' !! defaultChild (child this "KinesisDeliveryStreamLogs")
      = Some (RLogGroup group) /\
    t' !! defaultChild (child this "KinesisErrorLogStream")
      = Some (RLogStream logs) /\
    RetentionInDays group = Some 1%N /\
    LogGroup_DeletionPolicy group = DESTROY /\
    LogStream_DeletionPolicy logs = DESTROY.
Proof.
  intros H.
  apply CloudWatchToSplunk_new_Return
    in H as (_ & _ & _ & _ & Hg & Hl & _).
  eexists _, _. split; [exact Hg |]. split; [exact Hl |]. done.
Qed.

(** ** The grants *)

Lemma spec_absent {A} (m : cdk A) R X t a t' :
  m t = Return (a, t') ->
  t !! X = None ->
  spec m R (fun q _ => q <> X) ->
  t' !! X = None.
Proof.
  intros Hrun HX Hm. destruct (Hm t a t' Hrun) as [_ Hq].
  by destruct (Hq X) as [-> | (r & _ & Hne)].
Qed.

Ltac absent_side :=
  intros ? ? ?; lazy beta in *;
  repeat match goal with
         | H : _ /\ _ |- _ => destruct H
         | H : exists _, _ |- _ => destruct H
         end;
  subst; path_ne.

(** One statement of a constructor, which leaves [X] absent; [Hk] names
    its run. *)
Ltac step_absent H HX Hk :=
  apply bind_Return in H as (? & ? & Hk & H);
  eapply (spec_absent _ _ _ _ _ _ Hk) in HX; [| spec_go absent_side].


Lemma addToPrincipalPolicy_first role st t u t' :
  t !! defaultChild (child role "DefaultPolicy") = None ->
  Role.addToPrincipalPolicy role st t = Return (u, t') ->
  t' !! defaultChild (child role "DefaultPolicy")
    = Some (RPolicy {| PolicyStatements := [st];
                       PolicyRoles := [Role.roleName role] |}).
Proof.
  intros Hnone. unfold Role.addToPrincipalPolicy. intros H.
  rewrite (bind_run _ _ _ _ _ (tryFindChild_fresh _ _ _ Hnone)) in H.
  cbv beta iota in H.
  apply bind_Return in H as (p & t1 & H1 & H). injection H as _ <-.
  by apply newL2_lookup in H1 as (-> & H1).
Qed.

Lemma addToPrincipalPolicy_next role st pol t u t' :
  t !! defaultChild (child role "DefaultPolicy") = Some (RPolicy pol) ->
  Role.addToPrincipalPolicy role st t = Return (u, t') ->
  t' !! defaultChild (child role "DefaultPolicy")
    = Some (RPolicy {| PolicyStatements := PolicyStatements pol ++ [st];
                       PolicyRoles := PolicyRoles pol |}).
Proof.
  intros Hsome. unfold Role.addToPrincipalPolicy. intros H.
  rewrite (bind_run _ _ _ _ _ (tryFindChild_found _ _ _ _ Hsome)) in H.
  cbv beta iota in H. injection H as _ <-. by rewrite tree_lookup_alter_eq, Hsome.
Qed.

(** X7: what the three grants leave in the default policy of the
    delivery role.  Where the policy did not exist before, it holds
    exactly three statements, in the order of the grants: the write
    actions of [backupBucket.grantWrite] on the bucket and its objects,
    [lambda:InvokeFunction] on the transformer and its versions, and
    [logs:CreateLogStream] with [logs:PutLogEvents] on the error log
    group; and it is attached to the delivery role only. *)
Theorem delivery_role_grants scope id props t0 this t' :
  t0 !! defaultChild (child (child (child scope id) "DeliveryStreamRole")
                            "DefaultPolicy") = None ->
  CloudWatchToSplunk_new scope id props t0 = Return (this, t') ->
  t' !! defaultChild (child (child this "DeliveryStreamRole") "DefaultPolicy")
    = Some (RPolicy
        {| PolicyStatements :=
             [{| actions := ["s3:DeleteObject*"; "s3:PutObject";
                             "s3:PutObjectLegalHold"; "s3:PutObjectRetention";
                             "s3:PutObjectTagging"; "s3:PutObjectVersionTagging";
                             "s3:Abort*"];
                 resources :=
                   [VGetAtt (defaultChild (child this "BackupBucket")) "Arn";
                    VJoin "" [VGetAtt (defaultChild (child this "BackupBucket")) "Arn";
                              VStr "/*"]] |};
              {| actions := ["lambda:InvokeFunction"];
                 resources :=
                   [VGetAtt (defaultChild (child this "CloudWatchTransformer")) "Arn";
                    VJoin "" [VGetAtt (defaultChild (child this "CloudWatchTransformer"))
                                      "Arn";
                              VStr ":*"]] |};
              {| actions := ["logs:CreateLogStream"; "logs:PutLogEvents"];
                 resources :=
                   [VGetAtt (defaultChild (child this "KinesisDeliveryStreamLogs"))
                            "Arn"] |}];
           PolicyRoles := [VRef (defaultChild (child this "DeliveryStreamRole"))] |}).
Proof.
  intros HX H.
  pose proof (spec_result _ _ _ _ _ _ H
                (CloudWatchToSplunk_new_path _ _ _)) as Hthis.
  cbn beta in Hthis. subst this.
  unfold CloudWatchToSplunk_new in H.
  step_absent H HX H1. apply addChild_Return in H1 as (-> & _ & _).
  step_absent H HX H2.
  unfold Stream.new in H2; cbn in H2. apply newL2_Return in H2 as (-> & _).
  step_absent H HX Hfe. clear Hfe.
  step_absent H HX H4.
  unfold Bucket.new in H4; cbn in H4. apply newL2_Return in H4 as (-> & _).
  step_absent H HX H5. apply newL2_Return in H5 as (-> & _).
  step_absent H HX H6. apply newL2_Return in H6 as (-> & _).
  step_absent H HX H7. apply Function_new_Return in H7 as (-> & _).
  step_absent H HX H8. apply newL2_Return in H8 as (-> & _).
  apply bind_Return in H as (? & ? & Hg1 & H).
  apply (addToPrincipalPolicy_first _ _ _ _ _ HX) in Hg1.
  apply bind_Return in H as (? & ? & Hg2 & H).
  apply (addToPrincipalPolicy_next _ _ _ _ _ _ Hg1) in Hg2.
  apply bind_Return in H as (? & ? & Hg3 & H).
  apply (addToPrincipalPolicy_next _ _ _ _ _ _ Hg2) in Hg3.
  keep_from H Hg3. exact Hg3.
Qed.


(** * functions/get-public-ip.ts: accepted strings and [getPublicIp] *)

Lemma decimal_shape n :
  (n <= 255)%N ->
  let l := list_ascii_of_string (decimal n) in
  1 <= length l <= 3 /\ forallb is_digit l = true.
Proof.
  intros Hn. apply N_le_255 in Hn.
  assert (Hall : forallb octet_shape (map N.of_nat (seq 0 256)) = true)
    by (vm_compute; reflexivity).
  rewrite forallb_forall in Hall. specialize (Hall n Hn).
  unfold octet_shape in Hall. cbv zeta.
  apply andb_prop in Hall as [Hall Hd]. apply andb_prop in Hall as [H1 H3].
  apply Nat.leb_le in H1, H3. auto.
Qed.

Lemma list_ascii_of_string_app (s1 s2 : string) :
  list_ascii_of_string (s1 +:+ s2)
  = list_ascii_of_string s1 ++ list_ascii_of_string s2.
Proof.
  induction s1 as [| c s1 IH]; [done |].
  change (String c s1 +:+ s2) with (String c (s1 +:+ s2)).
  simpl. by rewrite IH.
Qed.

Lemma string_length_list (s : string) :
  String.length s = length (list_ascii_of_string s).
Proof. induction s as [| c s IH]; simpl; [done | by rewrite IH]. Qed.

Lemma digits_no_dot (l : list ascii) :
  forallb is_digit l = true -> count_occ ascii_dec l "."%char = 0.
Proof.
  induction l as [| c l IH]; [done |]. simpl.
  intros H. apply andb_prop in H as [Hc Hl].
  destruct (ascii_dec c "."); [subst c; discriminate Hc | auto].
Qed.

Lemma digits_Forall (l : list ascii) :
  forallb is_digit l = true ->
  Forall (fun c => is_digit c = true \/ c = "."%char) l.
Proof.
  rewrite forallb_forall, Forall_forall. intros H c Hc.
  left. apply H. by apply list_elem_of_In.
Qed.

(** X11: a string that [checkIfValidIP] returns has between 7 and 15
    characters, each a decimal digit or a dot, and exactly three dots: no
    white space, sign, port or prefix length gets through. *)
Theorem checkIfValidIP_shape ip r :
  checkIfValidIP ip = Return r ->
  7 <= String.length r <= 15 /\
  Forall (fun c => is_digit c = true \/ c = "."%char) (list_ascii_of_string r) /\
  count_occ ascii_dec (list_ascii_of_string r) "."%char = 3.
Proof.
  unfold checkIfValidIP.
  destruct (RegExp_test regexExp ip) eqn:E; [| discriminate].
  intros [= <-]. apply RegExp_test_regexExp in E.
  destruct E as (a & b & c & d & (Ha & Hb & Hc & Hd) & ->).
  apply decimal_shape in Ha as [Hla Hda], Hb as [Hlb Hdb],
    Hc as [Hlc Hdc], Hd as [Hld Hdd].
  cbv zeta in *. rewrite string_length_list. unfold dotted_quad.
  rewrite !list_ascii_of_string_app. cbn [list_ascii_of_string].
  split; [| split].
  - repeat first [ rewrite length_app | progress cbn [length] ]. lia.
  - repeat first [ apply Forall_app; split | apply Forall_cons; split
                 | by apply digits_Forall | by right | apply Forall_nil ].
  - repeat first [ rewrite count_occ_app | progress cbn [count_occ] ].
    rewrite !digits_no_dot by done.
    destruct (ascii_dec "." "."); [lia | done].
Qed.

Lemma checkIfValidIP_cases s :
  (is_IPv4 s /\ checkIfValidIP s = Return s) \/
  (~ is_IPv4 s /\
   checkIfValidIP s = Throw (Error_new (s +:+ " does not look valid."))).
Proof.
  unfold checkIfValidIP. destruct (RegExp_test regexExp s) eqn:E.
  - left. split; [by apply RegExp_test_regexExp | done].
  - right. split; [| done]. intros Hs. apply RegExp_test_regexExp in Hs.
    congruence.
Qed.

Lemma Error_toString_new (msg : string) :
  msg <> "" -> Error_toString (Error_new msg) = "Error: " +:+ msg.
Proof. destruct msg; [done |]. reflexivity. Qed.

(** X10: the outcomes of [getPublicIp].  It returns [s] exactly when the
    response parsed to an object whose [ip] is [s] and [s] is a dotted
    quad.  A rejected [fetch] is rethrown as it is (the [await fetch] is
    outside the [catch]).  An error [e] of [response.json()] is rethrown
    as [Error("Couldn't get your public IP: " + e)], where [e] is
    written as [Error.prototype.toString] writes it: [name: message], or
    the name alone when the message is empty, or the message alone when
    the name is empty.  An [ip] that is no dotted quad gives
    [Error("Couldn't get your public IP: Error: <ip> does not look valid.")]. *)
Theorem getPublicIp_outcomes :
  (forall network s,
     getPublicIp network = Return s <->
     exists data, network = Response (Return data) /\ ip data = s /\ is_IPv4 s) /\
  (forall e, getPublicIp (FetchRejected e) = Throw e) /\
  (forall e,
     getPublicIp (Response (Throw e))
     = Throw (Error_new ("Couldn't get your public IP: " +:+ Error_toString e))) /\
  (forall n m,
     Error_toString {| name := n; message := m |}
     = if decide (n = "") then m
       else if decide (m = "") then n
       else n +:+ ": " +:+ m) /\
  (forall s, ~ is_IPv4 s ->
     getPublicIp (Response (Return {| ip := s |}))
     = Throw (Error_new ("Couldn't get your public IP: Error: "
                           +:+ s +:+ " does not look valid."))).
Proof.
  split; [| split; [| split; [| split]]].
  - intros network s. split.
    + destruct network as [e | [[s'] | e]];
        cbv [getPublicIp then_ catch_ ip]; try discriminate.
      destruct (checkIfValidIP_cases s') as [[Hs ->] | [Hs ->]];
        [| discriminate].
      intros [= <-]. by exists {| ip := s' |}.
    + intros ([s'] & -> & <- & Hs). cbv [getPublicIp then_ catch_ ip].
      by destruct (checkIfValidIP_cases s') as [[_ ->] | [Hn _]].
  - done.
  - done.
  - intros n m. unfold Error_toString. cbn [name message].
    destruct (decide (n = "")) as [-> | Hn]; [done |].
    destruct (decide (m = "")) as [-> | Hm].
    + by destruct n.
    + by destruct n, m.
  - intros s Hs. cbv [getPublicIp then_ catch_ ip].
    destruct (checkIfValidIP_cases s) as [[Hy _] | [_ ->]]; [done |].
    rewrite Error_toString_new by (by destruct s). reflexivity.
Qed.

(** X9: the transformer function may run for five minutes
    ([Duration.minutes(5)], 300 seconds in the template) on the
    [nodejs14.x] runtime. *)
Theorem transformer_function_configuration scope id props t0 this t' :
  CloudWatchToSplunk_new scope id props t0 = Return (this, t') ->
  exists fn,
    t' !! defaultChild (child this "CloudWatchTransformer") = Some (RFunction fn) /\
    Timeout fn = Some 300%N /\
    Runtime fn = "nodejs14.x".
Proof.
  intros H.
  apply CloudWatchToSplunk_new_Return
    in H as (_ & _ & _ & _ & _ & _ & Hf & _).
  eexists. split; [exact Hf |]. done.
Qed.

(** X12: the construct as the repository's stack makes it.  For every
    hosted zone name, the delivery stream sends to
    [https://splunk.<zone>:8088], an [https] URL on the port of the
    Splunk event collector; its token is a dynamic reference to the
    secret [SplunkHECTokenSecret] of the Splunk service, not a literal;
    and the stack's log group [LogGroup] is subscribed to the ingest
    stream. *)
Theorem stack_delivery_endpoint stack zoneName t0 this t' :
  CloudwatchLogsToSplunkStack_sendLogs stack zoneName t0 = Return (this, t') ->
  exists ds f,
    this = child stack "CloudWatchToSplunk" /\
    t' !! child this "DeliveryStream" = Some (RDeliveryStream ds) /\
    hecEndpoint (splunkDestinationConfiguration ds)
      = "https://splunk." +:+ zoneName +:+ ":8088" /\
    is_https (hecEndpoint (splunkDestinationConfiguration ds)) = true /\
    hecToken (splunkDestinationConfiguration ds)
      = VDynamicReference "secretsmanager"
          [VRef (defaultChild (child (child stack "SplunkService")
                                     "SplunkHECTokenSecret"));
           VStr "SecretString"; VStr ""; VStr ""; VStr ""] /\
    is_plaintext (hecToken (splunkDestinationConfiguration ds)) = false /\
    t' !! defaultChild (child (child stack "LogGroup") "kinesis")
      = Some (RSubscriptionFilter f) /\
    DestinationArn f = VGetAtt (defaultChild (child this "IngestStream")) "Arn" /\
    LogGroupName f = VRef (defaultChild (child stack "LogGroup")).
Proof.
  unfold CloudwatchLogsToSplunkStack_sendLogs. intros H.
  apply CloudWatchToSplunk_new_Return
    in H as (Hthis & _ & Hf & _ & _ & _ & _ & _ & Hds).
  eexists _, _. split; [exact Hthis |]. split; [exact Hds |].
  split; [reflexivity |]. split; [reflexivity |].
  split; [reflexivity |]. split; [reflexivity |].
  split; [apply Hf; cbn; apply elem_of_cons; by left |]. done.
Qed.

(** * The properties on the stack of the test *)

Lemma CloudWatchToSplunk_new_preserves_witness :
  test_after !! defaultChild test_logGroup
  = Some (RLogGroup {| LogGroup_DeletionPolicy := RETAIN;
                       RetentionInDays := Some 731%N |}).
Proof.
  apply (CloudWatchToSplunk_new_preserves test_stack "CloudWatchToSplunk"
           (test_props test_logGroup) test_before test_this test_after).
  - vm_compute. reflexivity.
  - vm_compute. reflexivity.
  - intros H. vm_compute in H.
    repeat (apply elem_of_cons in H as [H | H]; [discriminate H |]).
    by apply elem_of_nil in H.
  - intros lg Hlg. apply list_elem_of_singleton in Hlg as ->.
    intros H. vm_compute in H.
    repeat (apply elem_of_cons in H as [H | H]; [discriminate H |]).
    by apply elem_of_nil in H.
Defined.

Lemma CloudWatchToSplunk_new_shared_log_group_witness :
  exists e,
    CloudWatchToSplunk_new test_stack "Second" (test_props test_logGroup)
      test_after
    = Throw e.
Proof.
  apply (CloudWatchToSplunk_new_shared_log_group test_stack "CloudWatchToSplunk"
           (test_props test_logGroup) test_before test_this test_after
           test_stack "Second" (test_props test_logGroup) test_logGroup).
  - vm_compute. reflexivity.
  - apply elem_of_cons. left. reflexivity.
  - apply elem_of_cons. left. reflexivity.
Defined.

Lemma CloudWatchToSplunk_new_twice_witness :
  exists e,
    CloudWatchToSplunk_new test_stack "CloudWatchToSplunk"
      {| props_hecEndpoint := "https://my-endpoint:8088";
         props_hecToken := SecretValue.plainText "value";
         logGroups := [] |} test_after
    = Throw e.
Proof.
  apply (CloudWatchToSplunk_new_twice test_stack "CloudWatchToSplunk"
           (test_props test_logGroup) test_before test_this test_after).
  vm_compute. reflexivity.
Defined.

Lemma CloudWatchToSplunk_new_only_listed_filters_witness :
  (forall q f,
     test_after !! q = Some (RSubscriptionFilter f) ->
     test_before !! q = Some (RSubscriptionFilter f) \/
     exists logGroup,
       logGroup ∈ logGroups (test_props test_logGroup) /\
       q = defaultChild (child logGroup "kinesis") /\
       f = {| DestinationArn :=
                VGetAtt (defaultChild (child test_this "IngestStream")) "Arn";
              FilterPattern := "";
              LogGroupName := VRef (defaultChild logGroup);
              RoleArn := Some (VGetAtt
                (defaultChild (child (child logGroup "kinesis")
                                     "CloudWatchLogsCanPutRecords")) "Arn") |}) /\
  (logGroups (test_props test_logGroup) = [] ->
   forall q f,
     test_after !! q = Some (RSubscriptionFilter f) ->
     test_before !! q = Some (RSubscriptionFilter f)).
Proof.
  apply (CloudWatchToSplunk_new_only_listed_filters test_stack
           "CloudWatchToSplunk" (test_props test_logGroup) test_before
           test_this test_after).
  vm_compute. reflexivity.
Defined.

Lemma delivery_stream_source_witness :
  exists ds stream role,
    test_after !! child test_this "DeliveryStream" = Some (RDeliveryStream ds) /\
    test_after !! defaultChild (child test_this "IngestStream")
      = Some (RStream stream) /\
    test_after !! defaultChild (child test_this "DeliveryStreamRole")
      = Some (RRole role) /\
    deliveryStreamType ds = "KinesisStreamAsSource" /\
    kinesisStreamArn (kinesisStreamSourceConfiguration ds)
      = VGetAtt (defaultChild (child test_this "IngestStream")) "Arn" /\
    sourceRoleArn (kinesisStreamSourceConfiguration ds)
      = VGetAtt (defaultChild (child test_this "DeliveryStreamRole")) "Arn" /\
    AssumeRolePrincipal role = "firehose.amazonaws.com" /\
    Policies role =
      [("Ingest",
        [{| actions := ["kinesis:DescribeStream"; "kinesis:GetShardIterator";
                        "kinesis:GetRecords"];
            resources :=
              [kinesisStreamArn (kinesisStreamSourceConfiguration ds)] |}])] /\
    dependsOn ds = [defaultChild (child test_this "DeliveryStreamRole")].
Proof.
  apply (delivery_stream_source test_stack "CloudWatchToSplunk"
           (test_props test_logGroup) test_before).
  vm_compute. reflexivity.
Defined.

Lemma delivery_error_logs_retention_witness :
  exists group logs,
    test_after !! defaultChild (child test_this "KinesisDeliveryStreamLogs")
      = Some (RLogGroup group) /\
    test_after !! defaultChild (child test_this "KinesisErrorLogStream")
      = Some (RLogStream logs) /\
    RetentionInDays group = Some 1%N /\
    LogGroup_DeletionPolicy group = DESTROY /\
    LogStream_DeletionPolicy logs = DESTROY.
Proof.
  apply (delivery_error_logs_retention test_stack "CloudWatchToSplunk"
           (test_props test_logGroup) test_before).
  vm_compute. reflexivity.
Defined.

Lemma transformer_function_configuration_witness :
  exists fn,
    test_after !! defaultChild (child test_this "CloudWatchTransformer")
      = Some (RFunction fn) /\
    Timeout fn = Some 300%N /\
    Runtime fn = "nodejs14.x".
Proof.
  apply (transformer_function_configuration test_stack "CloudWatchToSplunk"
           (test_props test_logGroup) test_before).
  vm_compute. reflexivity.
Defined.

Lemma delivery_role_grants_witness :
  test_after !! defaultChild (child (child test_this "DeliveryStreamRole")
                                     "DefaultPolicy")
    = Some (RPolicy
        {| PolicyStatements :=
             [{| actions := ["s3:DeleteObject*"; "s3:PutObject";
                             "s3:PutObjectLegalHold"; "s3:PutObjectRetention";
                             "s3:PutObjectTagging"; "s3:PutObjectVersionTagging";
                             "s3:Abort*"];
                 resources :=
                   [VGetAtt (defaultChild (child test_this "BackupBucket")) "Arn";
                    VJoin "" [VGetAtt (defaultChild (child test_this "BackupBucket"))
                                      "Arn";
                              VStr "/*"]] |};
              {| actions := ["lambda:InvokeFunction"];
                 resources :=
                   [VGetAtt (defaultChild (child test_this "CloudWatchTransformer"))
                            "Arn";
                    VJoin "" [VGetAtt (defaultChild
                                         (child test_this "CloudWatchTransformer"))
                                      "Arn";
                              VStr ":*"]] |};
              {| actions := ["logs:CreateLogStream"; "logs:PutLogEvents"];
                 resources :=
                   [VGetAtt (defaultChild
                               (child test_this "KinesisDeliveryStreamLogs"))
                            "Arn"] |}];
           PolicyRoles :=
             [VRef (defaultChild (child test_this "DeliveryStreamRole"))] |}).
Proof.
  apply (delivery_role_grants test_stack "CloudWatchToSplunk"
           (test_props test_logGroup) test_before test_this test_after).
  - vm_compute. reflexivity.
  - vm_compute. reflexivity.
Defined.

Lemma checkIfValidIP_shape_witness :
  7 <= String.length "203.0.113.7" <= 15 /\
  Forall (fun c => is_digit c = true \/ c = "."%char)
         (list_ascii_of_string "203.0.113.7") /\
  count_occ ascii_dec (list_ascii_of_string "203.0.113.7") "."%char = 3.
Proof.
  apply (checkIfValidIP_shape "203.0.113.7" "203.0.113.7").
  vm_compute. reflexivity.
Defined.

Lemma stack_delivery_endpoint_witness :
  exists ds f,
    test_this = child test_stack "CloudWatchToSplunk" /\
    run_tree (CloudwatchLogsToSplunkStack_sendLogs test_stack "example.com")
             test_before
      !! child test_this "DeliveryStream" = Some (RDeliveryStream ds) /\
    hecEndpoint (splunkDestinationConfiguration ds)
      = "https://splunk." +:+ "example.com" +:+ ":8088" /\
    is_https (hecEndpoint (splunkDestinationConfiguration ds)) = true /\
    hecToken (splunkDestinationConfiguration ds)
      = VDynamicReference "secretsmanager"
          [VRef (defaultChild (child (child test_stack "SplunkService")
                                     "SplunkHECTokenSecret"));
           VStr "SecretString"; VStr ""; VStr ""; VStr ""] /\
    is_plaintext (hecToken (splunkDestinationConfiguration ds)) = false /\
    run_tree (CloudwatchLogsToSplunkStack_sendLogs test_stack "example.com")
             test_before
      !! defaultChild (child (child test_stack "LogGroup") "kinesis")
      = Some (RSubscriptionFilter f) /\
    DestinationArn f
      = VGetAtt (defaultChild (child test_this "IngestStream")) "Arn" /\
    LogGroupName f = VRef (defaultChild (child test_stack "LogGroup")).
Proof.
  apply (stack_delivery_endpoint test_stack "example.com" test_before).
  vm_compute. reflexivity.
Defined.
